(** * weft: the terminal e-book reader of [reader.py]

    A shallow embedding of the [Reader] class of [src/reader.py]: title
    resolution ([_extract_title]), the greedy paragraph packing done at the
    top of [display_current], the clamp of the page index that follows it,
    and the position changes of [navigate]; then the extraction of the
    sections ([_process_sections]), the context given to the assistant
    ([_get_section_context]), the layout of the split views of [ask_ai]
    and [summarize_current], and [text_to_speech_stream] of [src/tts.py].

    Python values are modelled as follows.
    - [str] is a list of Unicode code points (a code point is an [N]);
      [len] counts code points, as Python does.
    - [int] is [Z]; [//] is [Z.div], which rounds toward minus infinity with
      a remainder of the divisor's sign exactly like Python, except that
      Python raises [ZeroDivisionError] where [Z.div] returns 0.
    - exceptions are the [Raise] case of [result]; none of the modelled
      code catches the two exceptions that can occur, and the loop of
      [read] lets them end the program, so no state is kept with them.
    - the attributes of [self] are a record that is passed in and returned. *)

From Stdlib Require Import String Ascii ZArith NArith List Bool Lia DecimalString.
Import ListNotations.
Local Open Scope Z_scope.

(* ================================================================== *)
(** ** Python exceptions and sequence indexing *)

Inductive exn : Type :=
| ZeroDivisionError
| IndexError.

Inductive result (A : Type) : Type :=
| Ok (a : A)
| Raise (e : exn).
Arguments Ok {A} a.
Arguments Raise {A} e.

Definition bind {A B : Type} (m : result A) (k : A -> result B) : result B :=
  match m with
  | Ok a => k a
  | Raise e => Raise e
  end.

Notation "x <- m ;; k" := (bind m (fun x => k))
  (at level 61, m at next level, right associativity).

(** [len(l)] *)
Definition len {A : Type} (l : list A) : Z := Z.of_nat (length l).

(** Truth value of a list or a string: non-empty. *)
Definition truthy {A : Type} (l : list A) : bool :=
  match l with
  | [] => false
  | _ :: _ => true
  end.

(** [a // b] *)
Definition floordiv (a b : Z) : result Z :=
  if b =? 0 then Raise ZeroDivisionError else Ok (a / b).

(** [a / b] on numbers is a float; only whether it raises is kept. *)
Definition truediv_defined (b : Z) : result unit :=
  if b =? 0 then Raise ZeroDivisionError else Ok tt.

(** [l[i]]: a negative index counts from the end, anything outside
    [-len(l) <= i < len(l)] raises [IndexError]. *)
Definition getitem {A : Type} (l : list A) (i : Z) : result A :=
  let j := if i <? 0 then i + len l else i in
  if (0 <=? j) && (j <? len l)
  then match nth_error l (Z.to_nat j) with
       | Some x => Ok x
       | None => Raise IndexError
       end
  else Raise IndexError.

(* ================================================================== *)
(** ** Python [str] *)

Module PyStr.

Definition char : Type := N.
Definition str : Type := list char.

(** A literal of the source; every literal of [reader.py] that is
    modelled is ASCII. *)
Definition lit (s : string) : str :=
  map N_of_ascii (list_ascii_of_string s).

(** [s.startswith(prefix)] *)
Fixpoint startswith (s prefix : str) {struct prefix} : bool :=
  match prefix with
  | [] => true
  | p :: prefix' =>
      match s with
      | [] => false
      | c :: s' => N.eqb c p && startswith s' prefix'
      end
  end.

(** Puts a character in front of the piece being read. *)
Definition push (c : char) (pieces : list str) : list str :=
  match pieces with
  | p :: ps => (c :: p) :: ps
  | [] => [[c]]
  end.

(** [s.split(sep)] for a non-empty [sep]: the leftmost occurrence of
    [sep] ends the piece, the scan resumes after it.  [skip] counts the
    characters of a matched separator that are still to be passed. *)
Fixpoint split_from (sep : str) (skip : nat) (s : str) : list str :=
  match s with
  | [] => [[]]
  | c :: s' =>
      match skip with
      | S k => split_from sep k s'
      | O =>
          if startswith s sep
          then [] :: split_from sep (length sep - 1) s'
          else push c (split_from sep 0 s')
      end
  end.

Definition split (s sep : str) : list str := split_from sep 0 s.

(** [sep.join(l)] *)
Fixpoint join (sep : str) (l : list str) : str :=
  match l with
  | [] => []
  | p :: l' =>
      match l' with
      | [] => p
      | _ :: _ => p ++ sep ++ join sep l'
      end
  end.

(** [s.count(sub)] for a non-empty [sub]: occurrences that do not
    overlap, counted from the left. *)
Fixpoint count_from (sub : str) (skip : nat) (s : str) : Z :=
  match s with
  | [] => 0
  | c :: s' =>
      match skip with
      | S k => count_from sub k s'
      | O =>
          if startswith s sub
          then 1 + count_from sub (length sub - 1) s'
          else count_from sub 0 s'
      end
  end.

Definition count (s sub : str) : Z := count_from sub 0 s.

(** [s.replace(old, new)] for a non-empty [old]: the pieces between the
    occurrences of [old], glued with [new]. *)
Definition replace (s old new : str) : str := join new (split s old).

(** The code points [str.isspace] accepts, which are those [str.strip()]
    removes. *)
Definition isspace (c : char) : bool :=
  ((9 <=? c) && (c <=? 13) || (28 <=? c) && (c <=? 32)
   || (c =? 133) || (c =? 160) || (c =? 5760)
   || (8192 <=? c) && (c <=? 8202)
   || (c =? 8232) || (c =? 8233) || (c =? 8239) || (c =? 8287)
   || (c =? 12288))%N.

Fixpoint dropwhile (f : char -> bool) (s : str) : str :=
  match s with
  | [] => []
  | c :: s' => if f c then dropwhile f s' else s
  end.

(** [s.strip()] *)
Definition strip (s : str) : str :=
  rev (dropwhile isspace (rev (dropwhile isspace s))).

(** [s.lstrip(chars)] *)
Definition lstrip (s chars : str) : str :=
  dropwhile (fun c => existsb (N.eqb c) chars) s.

(** [s.rfind(c)] for one character: the last index holding it, or -1. *)
Fixpoint rfind_char (s : str) (c : char) : Z :=
  match s with
  | [] => -1
  | x :: s' =>
      let r := rfind_char s' c in
      if 0 <=? r then 1 + r else if N.eqb x c then 0 else -1
  end.

End PyStr.
Import PyStr.

(** The paragraph delimiter of [display_current] and the line delimiter of
    [_extract_title]. *)
Definition NL : char := 10%N.
Definition BLANK_LINE : str := [NL; NL].   (* '\n\n' *)
Definition NEWLINE : str := [NL].          (* '\n' *)

(* ================================================================== *)
(** ** The objects [reader.py] works on *)

(** An item of the book, as far as [_extract_title] looks at it.
    [title = None] stands for an item without the attribute or with
    [None] in it. *)
Module Item.
Record t : Type := mk { title : option str; file_name : str }.
End Item.

(** A section: the dict built by [_process_sections]. *)
Module Sec.
Record t : Type := mk { content : str; title : str; parent : option str }.
End Sec.

(** [rich]'s console: the size of the terminal, taken as constant during
    one call of [display_current].  It is the viewport of the
    specification: [width] is the viewport width, [height] the viewport
    height. *)
Record Console : Type := { width : Z; height : Z }.

(** The attributes of [Reader] that pagination and navigation touch. *)
Record Reader : Type := {
  sections : list Sec.t;
  current_index : Z;
  current_page : Z;
  pages : list str
}.

(** [Reader.__init__]: first section, first page, no page computed yet. *)
Definition init (book : list Sec.t) : Reader :=
  {| sections := book; current_index := 0; current_page := 0; pages := [] |}.

(* ================================================================== *)
(** ** [_extract_title] *)

(** [PurePosixPath(p).name]: the last component of the path, where empty
    components and [.] do not count. *)
Definition path_name (p : str) : str :=
  last (filter (fun part => truthy part && negb (startswith part (lit ".") && (len part =? 1)))
               (split p (lit "/")))
       [].

(** [PurePosixPath(p).stem] (CPython 3.10 to 3.13): the name up to its last
    dot, unless that dot is the first or the last character. *)
Definition path_stem (p : str) : str :=
  let name := path_name p in
  let i := rfind_char name 46%N in
  if (0 <? i) && (i <? len name - 1) then firstn (Z.to_nat i) name else name.

Section ExtractTitle.

(** [Path(file_name).stem] is [pathlib]'s; the function is written over
    any such [stem], [path_stem] above being the one of POSIX paths. *)
Variable stem : str -> str.

Definition _extract_title (item : Item.t) (content : str) : str :=
  (* try to get title from item *)
  let declared := match Item.title item with
                  | Some t => if truthy t then Some t else None
                  | None => None
                  end in
  match declared with
  | Some t => t
  | None =>
      (* check first 5 lines for markdown heading *)
      let lines := split (strip content) NEWLINE in
      match find (fun line => startswith line (lit "#")) (firstn 5 lines) with
      | Some line => strip (lstrip line (lit "#"))
      | None =>
          (* fallback to filename *)
          strip (replace (stem (Item.file_name item)) (lit "_") (lit " "))
      end
  end.

End ExtractTitle.

(* ================================================================== *)
(** ** Pagination: lines 83 to 114 of [display_current] *)

(** The locals of the packing loop. *)
Record packing : Type := {
  l_pages : list str;          (* self.pages *)
  l_current_page : list str;   (* current_page *)
  l_current_lines : Z          (* current_lines *)
}.

(** Line 93: [len(para) // (console.width - 10) + para.count('\n') + 2]. *)
Definition para_lines (console : Console) (para : str) : result Z :=
  q <- floordiv (len para) (width console - 10) ;;
  Ok (q + count para NEWLINE + 2).

(** Lines 92 to 106: the body of [for para in paragraphs]. *)
Definition loop_body (console : Console) (console_height : Z)
                     (st : packing) (para : str) : result packing :=
  n <- para_lines console para ;;
  if l_current_lines st + n >? console_height then
    if truthy (l_current_page st) then
      Ok {| l_pages := l_pages st ++ [join BLANK_LINE (l_current_page st)];
            l_current_page := [para];
            l_current_lines := n |}
    else
      Ok {| l_pages := l_pages st ++ [para];
            l_current_page := [];
            l_current_lines := 0 |}
  else
    Ok {| l_pages := l_pages st;
          l_current_page := l_current_page st ++ [para];
          l_current_lines := l_current_lines st + n |}.

Fixpoint for_paragraphs (console : Console) (console_height : Z)
                        (paragraphs : list str) (st : packing) : result packing :=
  match paragraphs with
  | [] => Ok st
  | para :: rest =>
      st' <- loop_body console console_height st para ;;
      for_paragraphs console console_height rest st'
  end.

Definition NO_CONTENT : str := lit "[No content]".

(** Lines 87 to 89: the locals when the loop starts. *)
Definition packing0 : packing :=
  {| l_pages := []; l_current_page := []; l_current_lines := 0 |}.

(** The pages of [content] on [console]: what lines 83 to 114 leave in
    [self.pages]. *)
Definition paginate (console : Console) (content : str) : result (list str) :=
  let console_height := height console - 10 in
  let paragraphs := split content BLANK_LINE in
  st <- for_paragraphs console console_height paragraphs packing0 ;;
  (* Add the last page if there's content *)
  let pages1 := if truthy (l_current_page st)
                then l_pages st ++ [join BLANK_LINE (l_current_page st)]
                else l_pages st in
  (* ensure we have at least one page *)
  let pages2 := if truthy pages1 then pages1 else [NO_CONTENT] in
  Ok pages2.

(* ================================================================== *)
(** ** [display_current] *)

(** Lines 117 to 120. *)
Definition clamp_page (page : Z) (pages : list str) : Z :=
  if page >=? len pages then len pages - 1
  else if page <? 0 then 0
  else page.

(** [display_current]: the new attributes of [self] and the text of the
    page that is rendered ([None] when the book has no section and only
    the notice is printed).  Rendering itself is not modelled. *)
Definition display_current (console : Console) (self : Reader)
  : result (Reader * option str) :=
  if negb (truthy (sections self)) then Ok (self, None)
  else
    section <- getitem (sections self) (current_index self) ;;
    pages' <- paginate console (Sec.content section) ;;
    (* safety check: ensure current_page is within bounds *)
    let page := clamp_page (current_page self) pages' in
    page_content <- getitem pages' page ;;
    (* calculate progress *)
    _ <- truediv_defined (len (sections self)) ;;
    _ <- truediv_defined (len pages') ;;
    Ok ({| sections := sections self;
           current_index := current_index self;
           current_page := page;
           pages := pages' |}, Some page_content).

(* ================================================================== *)
(** ** [navigate] *)

Definition PREV_SECTION : Z := -1.
Definition NEXT_SECTION : Z := 1.
Definition PREV_PAGE : Z := -2.
Definition NEXT_PAGE : Z := 2.
Definition JUMP_START : Z := -99.
Definition JUMP_END : Z := 99.

Definition in_range (i n : Z) : bool := (0 <=? i) && (i <? n).

Definition set_position (self : Reader) (index page : Z) : Reader :=
  {| sections := sections self;
     current_index := index;
     current_page := page;
     pages := pages self |}.

(** [navigate(direction)]: the new attributes of [self] and the value
    returned. *)
Definition navigate (direction : Z) (self : Reader) : Reader * bool :=
  if (direction =? -1) || (direction =? 1) then
    let new_index := current_index self + direction in
    if in_range new_index (len (sections self))
    then (set_position self new_index 0, true)
    else (self, false)
  else if (direction =? -2) || (direction =? 2) then
    let new_page := current_page self + (if direction =? 2 then 1 else -1) in
    if in_range new_page (len (pages self))
    then (set_position self (current_index self) new_page, true)
    else
      (* Try next/prev section *)
      let new_index := current_index self + (if direction =? 2 then 1 else -1) in
      if in_range new_index (len (sections self))
      then (set_position self new_index
              (if direction =? 2 then 0 else len (pages self) - 1), true)
      else (self, false)
  else if direction =? -99 then (set_position self 0 0, true)
  else if direction =? 99 then
    (set_position self (len (sections self) - 1) (len (pages self) - 1), true)
  else (self, false).

(** The six directions the keys of [read] are bound to. *)
Definition operation (direction : Z) : Prop :=
  In direction [PREV_SECTION; NEXT_SECTION; PREV_PAGE; NEXT_PAGE; JUMP_START; JUMP_END].

(** One turn of the loop of [read] on a navigation key: the position is
    changed, then the section shown is paginated and displayed. *)
Definition press (console : Console) (direction : Z) (self : Reader)
  : result (Reader * option str) :=
  display_current console (fst (navigate direction self)).

(** The states of [self] that the loop of [read] shows: the first display
    of a freshly loaded book, then one navigation key after the other.
    The terminal may have another size at every display. *)
Inductive shown (book : list Sec.t) : Reader -> Prop :=
| shown_first : forall console self out,
    display_current console (init book) = Ok (self, out) ->
    shown book self
| shown_press : forall console direction self self' out,
    shown book self ->
    operation direction ->
    press console direction self = Ok (self', out) ->
    shown book self'.

(* ================================================================== *)
(** ** Vocabulary of the statements *)

(** A paragraph holds no blank line, and a paragraph that another one
    follows does not end in a newline (it would have been cut one
    character earlier). *)
Definition no_blank (p : str) : Prop := forall a b, p <> a ++ BLANK_LINE ++ b.
Definition open_end (p : str) : Prop := forall a, p <> a ++ [NL].

Inductive paragraphs_ok : list str -> Prop :=
| ok_last : forall p, no_blank p -> paragraphs_ok [p]
| ok_cons : forall p ps,
    no_blank p -> open_end p -> paragraphs_ok ps -> paragraphs_ok (p :: ps).

(** The paragraphs of a page: the page is the paragraphs it holds, joined
    by blank lines. *)
Definition paragraphs_of (page : str) : list str := split page BLANK_LINE.

(** The estimate of the specification: a ceiling division by a divisor
    kept at 1 or more, plus the newlines, plus a fixed overhead. *)
Definition ceil_div (a b : Z) : Z := - ((- a) / b).

Definition spec_para_lines (margin fixedOverhead viewportWidth : Z) (para : str) : Z :=
  ceil_div (len para) (Z.max 1 (viewportWidth - margin))
  + count para NEWLINE + fixedOverhead.

(** Values the examples are run on. *)
Definition console_80x24 : Console := {| width := 80; height := 24 |}.
Definition console_10x24 : Console := {| width := 10; height := 24 |}.
(** Three lines of budget: [console.height - 10 = 3]. *)
Definition console_80x13 : Console := {| width := 80; height := 13 |}.

Definition three_lines (s : string) : str :=
  lit s ++ NEWLINE ++ lit s ++ NEWLINE ++ lit s.

(** Two paragraphs of three lines, then a short one. *)
Definition tall_content : str :=
  three_lines "x" ++ BLANK_LINE ++ three_lines "y" ++ BLANK_LINE ++ lit "z".

(** The position of the reader: section index and page index. *)
Definition position (self : Reader) : Z * Z :=
  (current_index self, current_page self).

(** The position a direction leads to from [self] when [navigate] moves:
    every case sets both indices from the state before the call. *)
Inductive new_position (self : Reader) : Z -> Z * Z -> Prop :=
| np_section : forall d,
    d = PREV_SECTION \/ d = NEXT_SECTION ->
    0 <= current_index self + d < len (sections self) ->
    new_position self d (current_index self + d, 0)
| np_page : forall d step,
    (d = PREV_PAGE /\ step = -1) \/ (d = NEXT_PAGE /\ step = 1) ->
    0 <= current_page self + step < len (pages self) ->
    new_position self d (current_index self, current_page self + step)
| np_next_page_section :
    ~ 0 <= current_page self + 1 < len (pages self) ->
    0 <= current_index self + 1 < len (sections self) ->
    new_position self NEXT_PAGE (current_index self + 1, 0)
| np_prev_page_section :
    ~ 0 <= current_page self - 1 < len (pages self) ->
    0 <= current_index self - 1 < len (sections self) ->
    new_position self PREV_PAGE (current_index self - 1, len (pages self) - 1)
| np_start : new_position self JUMP_START (0, 0)
| np_end :
    new_position self JUMP_END (len (sections self) - 1, len (pages self) - 1).

(** The direction asks for a position beyond the first or the last one. *)
Definition past_boundary (self : Reader) (d : Z) : Prop :=
  ((d = PREV_SECTION \/ d = NEXT_SECTION) /\
   ~ 0 <= current_index self + d < len (sections self))
  \/ (d = PREV_PAGE /\
      ~ 0 <= current_page self - 1 < len (pages self) /\
      ~ 0 <= current_index self - 1 < len (sections self))
  \/ (d = NEXT_PAGE /\
      ~ 0 <= current_page self + 1 < len (pages self) /\
      ~ 0 <= current_index self + 1 < len (sections self)).

(** A book of two sections: three short paragraphs, then one.  With three
    lines of budget the first section has three pages and the second has
    one. *)
Definition section_of (text : str) : Sec.t :=
  Sec.mk text (lit "untitled") None.

Definition two_sections : list Sec.t :=
  [section_of (lit "a" ++ BLANK_LINE ++ lit "b" ++ BLANK_LINE ++ lit "c");
   section_of (lit "d")].

(** The reader on the only page of the second section. *)
Definition on_second_section : Reader :=
  {| sections := two_sections; current_index := 1; current_page := 0;
     pages := [lit "d"] |}.

(** The reader on the first page of the first section. *)
Definition on_first_section : Reader :=
  {| sections := two_sections; current_index := 0; current_page := 0;
     pages := [lit "a"; lit "b"; lit "c"] |}.

(** What holds of the reader after each display: both indices are within
    the lists they index, and the pages are those of the section shown. *)
Definition displayed (book : list Sec.t) (self : Reader) : Prop :=
  sections self = book /\
  0 <= current_index self < len (sections self) /\
  0 <= current_page self < len (pages self) /\
  exists console section,
    getitem (sections self) (current_index self) = Ok section /\
    paginate console (Sec.content section) = Ok (pages self).

(** Title resolution as the specification words it: the heading is looked
    for among the first 5 non-empty lines of the content, and the fallback
    is the stem of the file name with underscores replaced by spaces. *)
Definition spec_resolve_title (stem : str -> str) (item : Item.t) (content : str) : str :=
  let declared := match Item.title item with
                  | Some t => if truthy t then Some t else None
                  | None => None
                  end in
  match declared with
  | Some t => t
  | None =>
      let non_empty_lines := filter truthy (split content NEWLINE) in
      match find (fun line => startswith line (lit "#")) (firstn 5 non_empty_lines) with
      | Some line => strip (lstrip line (lit "#"))
      | None => replace (stem (Item.file_name item)) (lit "_") (lit " ")
      end
  end.

(** A string that neither begins nor ends with whitespace. *)
Definition trimmed (s : str) : Prop :=
  (forall c rest, s = c :: rest -> isspace c = false) /\
  (forall front c, s = front ++ [c] -> isspace c = false).

(** A line, four empty lines, then a heading: the heading is the second
    non-empty line and the sixth line. *)
Definition late_heading : str :=
  lit "a" ++ NEWLINE ++ NEWLINE ++ NEWLINE ++ NEWLINE ++ NEWLINE ++ lit "# H".

(* ================================================================== *)
(** ** [_process_sections] *)

(** What [item.get_content()] returns: [None] or bytes. *)
Inductive raw_content : Type :=
| RawNone
| RawBytes (b : list Byte.byte).

(** An item of [book.get_items()]: whether [get_type()] is
    [ITEM_DOCUMENT], its content, and what [_extract_title] reads. *)
Record BookItem : Type := {
  is_document : bool;
  get_content : raw_content;
  attributes : Item.t
}.

(** The value under ['content']: the converted text, or the raw content
    itself when it is falsy ([None] or [b'']) and the conversion is not
    run. *)
Inductive content_value : Type :=
| Text (s : str)
| Unconverted (r : raw_content).

(** The dict appended to [sections]. *)
Record extracted : Type := {
  x_content : content_value;
  x_title : str;
  x_parent : option str
}.

Definition truthy_raw (r : raw_content) : bool :=
  match r with
  | RawNone => false
  | RawBytes b => truthy b
  end.

Section ProcessSections.

(** [html2tui.handle(content.decode('utf-8'))] is [html2text]'s and the
    codec's: [None] when it raises. *)
Variable html_to_text : list Byte.byte -> option str.
Variable stem : str -> str.

(** [self._extract_title(item, content)] on the value the section holds:
    on a falsy raw content the declared title is returned when there is
    one, and [content.strip().split('\n')] raises otherwise ([None] has no
    [strip], bytes are not split by a [str]); [None] is the exception. *)
Definition extract_title_of (item : Item.t) (content : content_value) : option str :=
  match content with
  | Text s => Some (_extract_title stem item s)
  | Unconverted _ =>
      match Item.title item with
      | Some t => if truthy t then Some t else None
      | None => None
      end
  end.

(** Lines 46 to 52, the body of the [try]: the section built from an item,
    or [None] when an exception is caught (line 55). *)
Definition process_item (prev : option extracted) (it : BookItem) : option extracted :=
  let converted :=
    match get_content it with
    | RawBytes b =>
        if truthy b then option_map Text (html_to_text b)
        else Some (Unconverted (RawBytes b))
    | RawNone => Some (Unconverted RawNone)
    end in
  match converted with
  | None => None
  | Some content =>
      match extract_title_of (attributes it) content with
      | None => None
      | Some title =>
          Some {| x_content := content;
                  x_title := title;
                  x_parent := option_map x_title prev |}
      end
  end.

(** Lines 41 to 56: the loop over the items, with the locals [sections]
    and [prev]. *)
Fixpoint process_loop (items : list BookItem) (sections : list extracted)
                      (prev : option extracted) : list extracted :=
  match items with
  | [] => sections
  | it :: rest =>
      if negb (is_document it) then process_loop rest sections prev
      else
        match process_item prev it with
        | Some section => process_loop rest (sections ++ [section]) (Some section)
        | None => process_loop rest sections prev
        end
  end.

Definition _process_sections (items : list BookItem) : list extracted :=
  process_loop items [] None.

End ProcessSections.

(* ================================================================== *)
(** ** [_get_section_context] *)

(** [book.get_metadata('DC', key)]: a list of pairs, a value and its
    attributes. *)
Definition metadata_entries : Type := list (str * list (str * str)).

(** [self.metadata], the dict of [_extract_metadata]. *)
Record Metadata : Type := {
  md_title : metadata_entries;
  md_author : metadata_entries;
  md_language : metadata_entries;
  md_description : metadata_entries
}.

(** [str(n)] inside an f-string. *)
Definition str_of_int (n : Z) : str := lit (NilZero.string_of_int (Z.to_int n)).

(** The 16 spaces that start the lines of the f-string. *)
Definition INDENT : str := lit "                ".

Definition _get_section_context (metadata : Metadata) (self : Reader) : result str :=
  current <- getitem (sections self) (current_index self) ;;
  current_content <- getitem (pages self) (current_page self) ;;
  (* get book metadata *)
  let book_info :=
    (match md_title metadata with
     | (value, _) :: _ => [lit "Title: " ++ value]
     | [] => []
     end)
    ++ (match md_author metadata with
        | (value, _) :: _ => [lit "Author: " ++ value]
        | [] => []
        end) in
  (* get hierarchical context *)
  let with_parent :=
    match Sec.parent current with
    | Some p => if truthy p then Some p else None
    | None => None
    end in
  let hierarchy :=
    match with_parent with
    | Some p => [lit "Section: " ++ p ++ lit " > " ++ Sec.title current]
    | None => [lit "Section: " ++ Sec.title current]
    end in
  Ok (lit "Book Information: " ++ join (lit " | ") book_info ++ NEWLINE
      ++ NEWLINE
      ++ INDENT ++ lit "Location: " ++ join (lit " > ") hierarchy ++ NEWLINE
      ++ INDENT ++ lit "Page: " ++ str_of_int (current_page self + 1)
                ++ lit " of " ++ str_of_int (len (pages self)) ++ NEWLINE
      ++ NEWLINE
      ++ INDENT ++ lit "Content:" ++ NEWLINE
      ++ INDENT ++ current_content).

(* ================================================================== *)
(** ** The split views of [ask_ai] and [summarize_current] *)

(** [calculate_layout] of [ask_ai]: the heights of the content panel and
    of the response panel. *)
Definition ask_ai_calculate_layout (console : Console) : Z * Z :=
  let available_height := height console - 12 in
  let content_height := available_height / 2 in
  let response_height := available_height - content_height in
  (content_height, response_height).

(** [calculate_layout] of [summarize_current]. *)
Definition summarize_calculate_layout (console : Console) : Z * Z :=
  let available_height := height console - 8 in
  let content_height := available_height / 2 in
  let summary_height := available_height - content_height in
  (content_height, summary_height).

(** [l[:stop]]: a negative [stop] counts from the end, and the slice is
    empty rather than an error when it falls before the start. *)
Definition slice_to {A : Type} (l : list A) (stop : Z) : list A :=
  if stop <? 0 then firstn (Z.to_nat (len l + stop)) l
  else firstn (Z.to_nat stop) l.

(** Lines 235 and 236 of [render_split_view] in [ask_ai]: the text given
    to the content panel. *)
Definition visible_content (console : Console) (content : str) : str :=
  let content_height := fst (ask_ai_calculate_layout console) in
  let content_lines := split content NEWLINE in
  join NEWLINE (slice_to content_lines (content_height - 4)).

(* ================================================================== *)
(** ** [tts.py]: [text_to_speech_stream] *)

(** [io.BytesIO]: the bytes held and the position of the next read or
    write. *)
Record BytesIO : Type := { buffer : list Byte.byte; tell : nat }.

Definition BytesIO_new : BytesIO := {| buffer := []; tell := 0 |}.

(** [audio.write(chunk)]: nothing happens for an empty chunk; otherwise
    the chunk replaces what is at the position (the gap is filled with
    zeros when the position is past the end) and the position moves past
    it. *)
Definition write (audio : BytesIO) (chunk : list Byte.byte) : BytesIO :=
  match chunk with
  | [] => audio
  | _ :: _ =>
      {| buffer := firstn (tell audio) (buffer audio)
                   ++ repeat Byte.x00 (tell audio - length (buffer audio))
                   ++ chunk
                   ++ skipn (tell audio + length chunk) (buffer audio);
         tell := tell audio + length chunk |}
  end.

(** [audio.seek(pos)] *)
Definition seek (audio : BytesIO) (pos : nat) : BytesIO :=
  {| buffer := buffer audio; tell := pos |}.

(** [audio.read()]: the bytes from the position to the end. *)
Definition read_all (audio : BytesIO) : list Byte.byte * BytesIO :=
  (skipn (tell audio) (buffer audio),
   {| buffer := buffer audio;
      tell := Nat.max (tell audio) (length (buffer audio)) |}).

(** [text_to_speech_stream], given the chunks that the response of the
    service yields. *)
Definition text_to_speech_stream (response : list (list Byte.byte)) : BytesIO :=
  let audio := fold_left write response BytesIO_new in
  seek audio 0.

(* ================================================================== *)
(** ** Vocabulary of the further statements *)

(** The value of the estimate of line 93 when the division is defined. *)
Definition estimate (console : Console) (para : str) : Z :=
  len para / (width console - 10) + count para NEWLINE + 2.

Definition total_estimate (console : Console) (paragraphs : list str) : Z :=
  fold_right (fun para acc => estimate console para + acc) 0 paragraphs.

(** A page holds one paragraph, or paragraphs whose estimates add up to
    [h] at most. *)
Definition fits (console : Console) (h : Z) (g : list str) : Prop :=
  length g = 1%nat \/ (g <> [] /\ total_estimate console g <= h).

(** The reader is as a display on [console] leaves it. *)
Definition on_display (console : Console) (self : Reader) : Prop :=
  exists page, display_current console self = Ok (self, Some page).

(** The number of pages of a section on [console]. *)
Definition page_count (console : Console) (section : Sec.t) : Z :=
  match paginate console (Sec.content section) with
  | Ok pages => len pages
  | Raise _ => 0
  end.

(** A section of the book and one of its pages on [console]. *)
Definition valid_position (console : Console) (book : list Sec.t) (p : Z * Z) : Prop :=
  exists section,
    0 <= fst p /\ nth_error book (Z.to_nat (fst p)) = Some section /\
    0 <= snd p < page_count console section.

(** Document order on positions. *)
Definition before (p q : Z * Z) : Prop :=
  fst p < fst q \/ (fst p = fst q /\ snd p < snd q).

(** Each section names the title of the one before it. *)
Inductive chained : option str -> list extracted -> Prop :=
| chained_nil : forall parent, chained parent []
| chained_cons : forall parent section rest,
    x_parent section = parent ->
    chained (Some (x_title section)) rest ->
    chained parent (section :: rest).

(** A conversion to run the examples with: ASCII bytes are their own
    text, any other byte makes the decoding raise. *)
Definition ascii_text (b : list Byte.byte) : option str :=
  if forallb (fun x => (Byte.to_N x <? 128)%N) b
  then Some (map Byte.to_N b)
  else None.

Definition bytes_of (s : string) : list Byte.byte :=
  map byte_of_ascii (list_ascii_of_string s).

Definition document (raw : list Byte.byte) (file : string) : BookItem :=
  {| is_document := true;
     get_content := RawBytes raw;
     attributes := Item.mk None (lit file) |}.

(** Two chapters, with a picture and a chapter that does not decode in
    between. *)
Definition example_items : list BookItem :=
  [document (bytes_of "# One") "one.html";
   {| is_document := false; get_content := RawBytes [Byte.xff];
      attributes := Item.mk None (lit "cover.png") |};
   document [Byte.xff] "bad.html";
   document (bytes_of "# Two") "two.html"].

(** No page could have taken the paragraph that starts the next page:
    with it, the estimate of the page would have exceeded [h]. *)
Definition greedy (console : Console) (h : Z) (groups : list (list str)) : Prop :=
  forall l1 g p rest l2,
    groups = l1 ++ g :: (p :: rest) :: l2 ->
    total_estimate console g + estimate console p > h.

(** The same for the last page flushed and the page in the making; when
    the latter is empty the last page flushed is an oversized one. *)
Definition last_page_full (console : Console) (h : Z)
           (done : list (list str)) (current : list str) : Prop :=
  forall l g,
    done = l ++ [g] ->
    (current = [] -> total_estimate console g > h) /\
    (forall p rest, current = p :: rest ->
                    total_estimate console g + estimate console p > h).

(* ================================================================== *)
(** * Facts about the string operations *)

Section StrFacts.

Lemma len_nonneg {A : Type} (l : list A) : 0 <= len l.
Proof. unfold len. lia. Qed.

Lemma len_app {A : Type} (l1 l2 : list A) : len (l1 ++ l2) = len l1 + len l2.
Proof. unfold len. rewrite length_app. lia. Qed.

Lemma truthy_true {A : Type} (l : list A) : truthy l = true <-> l <> [].
Proof. destruct l; simpl; split; congruence. Qed.

Lemma truthy_false {A : Type} (l : list A) : truthy l = false <-> l = [].
Proof. destruct l; simpl; split; congruence. Qed.

Lemma truthy_snoc {A : Type} (l : list A) (x : A) : truthy (l ++ [x]) = true.
Proof. destruct l; reflexivity. Qed.

Lemma truthy_mid {A : Type} (l m : list A) (x : A) : truthy (l ++ x :: m) = true.
Proof. destruct l; reflexivity. Qed.

Lemma truthy_len {A : Type} (l : list A) : truthy l = true <-> 0 < len l.
Proof. destruct l; unfold len; simpl; split; intros; try congruence; lia. Qed.

Lemma startswith_prefix (sep s : str) :
  startswith s sep = true <-> exists rest, s = sep ++ rest.
Proof.
  revert s. induction sep as [|p sep IH]; intros s; simpl.
  - split; [intros _; now exists s | reflexivity].
  - destruct s as [|c s].
    + split; [discriminate | intros [rest H]; discriminate].
    + rewrite andb_true_iff, N.eqb_eq, IH. split.
      * intros [-> [rest ->]]. eauto.
      * intros [rest H]. injection H as -> ->. eauto.
Qed.

Lemma startswith_skipn (sep s : str) :
  startswith s sep = true -> s = sep ++ skipn (length sep) s.
Proof.
  intros H. apply startswith_prefix in H as [rest ->].
  now rewrite skipn_app, Nat.sub_diag, skipn_all.
Qed.

Lemma split_from_skip (sep : str) (k : nat) (s : str) :
  (k <= length s)%nat -> split_from sep k s = split_from sep 0 (skipn k s).
Proof.
  revert s. induction k as [|k IH]; intros s Hk.
  - reflexivity.
  - destruct s as [|c s]; simpl in Hk; [lia|].
    simpl. apply IH. lia.
Qed.

(** The two equations [split] is used through. *)
Lemma split_nil (sep : str) : split [] sep = [[]].
Proof. reflexivity. Qed.

Lemma split_cons (sep : str) (c : char) (s : str) :
  sep <> [] ->
  split (c :: s) sep =
    if startswith (c :: s) sep
    then [] :: split (skipn (length sep) (c :: s)) sep
    else push c (split s sep).
Proof.
  intros Hsep. unfold split. cbn [split_from].
  destruct (startswith (c :: s) sep) eqn:E; [|reflexivity].
  f_equal. destruct sep as [|p sep]; [congruence|].
  apply startswith_prefix in E as [rest E]. injection E as -> ->.
  cbn [length skipn Nat.sub]. rewrite Nat.sub_0_r.
  apply split_from_skip. rewrite length_app. lia.
Qed.

Lemma split_not_nil (s sep : str) : split s sep <> [].
Proof.
  unfold split. destruct s as [|c s]; cbn [split_from]; [discriminate|].
  destruct (startswith (c :: s) sep); [discriminate|].
  destruct (split_from sep 0 s); discriminate.
Qed.

Lemma join_push (sep : str) (c : char) (l : list str) :
  l <> [] -> join sep (push c l) = c :: join sep l.
Proof.
  destruct l as [|p [|q l]]; [congruence | reflexivity | reflexivity].
Qed.

Lemma join_cons (sep p : str) (l : list str) :
  l <> [] -> join sep (p :: l) = p ++ sep ++ join sep l.
Proof. destruct l; [congruence | reflexivity]. Qed.

(** Joining the pieces with the separator gives the string back: splitting
    loses no character. *)
Lemma join_split (sep s : str) : sep <> [] -> join sep (split s sep) = s.
Proof.
  intros Hsep.
  assert (H : forall n s, (length s <= n)%nat -> join sep (split s sep) = s).
  { induction n as [|n IH]; intros [|c t] Hn; simpl in Hn; try reflexivity; try lia.
    rewrite split_cons by assumption.
    destruct (startswith (c :: t) sep) eqn:E.
    - rewrite join_cons by apply split_not_nil.
      rewrite IH.
      + simpl. symmetry. now apply startswith_skipn.
      + destruct sep as [|p sep]; [congruence|].
        cbn [length skipn]. rewrite length_skipn. lia.
    - rewrite join_push by apply split_not_nil.
      f_equal. apply IH. lia. }
  now apply (H (length s)).
Qed.

End StrFacts.

(* ================================================================== *)
(** * Paragraphs: splitting on blank lines and joining back *)

Section Paragraphs.

Lemma BLANK_LINE_not_nil : BLANK_LINE <> [].
Proof. discriminate. Qed.

Lemma startswith_blank (c : char) (s : str) :
  startswith (c :: s) BLANK_LINE = true <-> c = NL /\ exists t, s = NL :: t.
Proof.
  rewrite startswith_prefix. unfold BLANK_LINE. simpl. split.
  - intros [rest H]. injection H as -> ->. eauto.
  - intros [-> [t ->]]. eauto.
Qed.

Lemma no_blank_nil : no_blank [].
Proof. intros a b H. destruct a; discriminate. Qed.

Lemma open_end_nil : open_end [].
Proof. intros a H. destruct a; discriminate. Qed.

Lemma no_blank_tail (c : char) (p : str) : no_blank (c :: p) -> no_blank p.
Proof. intros H a b ->. now apply (H (c :: a) b). Qed.

Lemma open_end_tail (c : char) (p : str) : open_end (c :: p) -> open_end p.
Proof. intros H a ->. now apply (H (c :: a)). Qed.

(** A character in front of a paragraph keeps these properties as long
    as it does not complete a blank line. *)
Lemma no_blank_cons (c : char) (p : str) :
  no_blank p -> ~ (c = NL /\ exists t, p = NL :: t) -> no_blank (c :: p).
Proof.
  intros Hp Hc a b H. destruct a as [|x a].
  - injection H as -> ->. apply Hc. eauto.
  - injection H as _ ->. now apply (Hp a b).
Qed.

Lemma open_end_cons (c : char) (p : str) :
  open_end p -> ~ (c = NL /\ p = []) -> open_end (c :: p).
Proof.
  intros Hp Hc a H. destruct a as [|x a].
  - injection H as -> ->. now apply Hc.
  - injection H as _ ->. now apply (Hp a).
Qed.

Lemma split_no_blank (p : str) : no_blank p -> split p BLANK_LINE = [p].
Proof.
  induction p as [|c p IH]; intros Hp; [reflexivity|].
  rewrite split_cons by apply BLANK_LINE_not_nil.
  destruct (startswith (c :: p) BLANK_LINE) eqn:E.
  - apply startswith_blank in E as [-> [t ->]]. now destruct (Hp [] t).
  - rewrite IH by (eapply no_blank_tail; eassumption). reflexivity.
Qed.

Lemma split_app_paragraph (p s : str) :
  no_blank p -> open_end p ->
  split (p ++ BLANK_LINE ++ s) BLANK_LINE = p :: split s BLANK_LINE.
Proof.
  induction p as [|c p IH]; intros Hb He.
  - reflexivity.
  - change ((c :: p) ++ BLANK_LINE ++ s) with (c :: (p ++ BLANK_LINE ++ s)).
    rewrite split_cons by apply BLANK_LINE_not_nil.
    destruct (startswith (c :: p ++ BLANK_LINE ++ s) BLANK_LINE) eqn:E.
    + apply startswith_blank in E as [-> [t E]]. destruct p as [|x p].
      * now destruct (He []).
      * injection E as -> _. now destruct (Hb [] p).
    + rewrite IH; [reflexivity | |].
      * eapply no_blank_tail; eassumption.
      * eapply open_end_tail; eassumption.
Qed.

(** Splitting a page gives back the paragraphs that were joined into it. *)
Lemma split_join (g : list str) :
  paragraphs_ok g -> split (join BLANK_LINE g) BLANK_LINE = g.
Proof.
  induction 1 as [p Hp | p ps Hb He Hps IH].
  - now apply split_no_blank.
  - rewrite join_cons by (inversion Hps; discriminate).
    rewrite split_app_paragraph by assumption. now rewrite IH.
Qed.

(** What [split] returns is a sequence of paragraphs in that sense. *)
Lemma split_paragraphs_ok (s : str) : paragraphs_ok (split s BLANK_LINE).
Proof.
  assert (H : forall n s, (length s <= n)%nat -> paragraphs_ok (split s BLANK_LINE)).
  { clear s. induction n as [|n IH]; intros [|c t] Hn; simpl in Hn;
      try (apply ok_last, no_blank_nil); try lia.
    rewrite split_cons by apply BLANK_LINE_not_nil.
    destruct (startswith (c :: t) BLANK_LINE) eqn:E.
    - apply startswith_blank in E as [-> [u ->]].
      apply ok_cons; [apply no_blank_nil | apply open_end_nil |].
      apply IH. simpl in Hn. simpl. lia.
    - pose proof (join_split BLANK_LINE t BLANK_LINE_not_nil) as J.
      assert (Hc : ~ (c = NL /\ exists u, t = NL :: u)).
      { intros Hc. apply startswith_blank in Hc. congruence. }
      specialize (IH t ltac:(lia)).
      inversion IH as [p Hp Hsp | p ps Hb He Hps Hsp]; rewrite <- Hsp in J; simpl push.
      + simpl in J. subst p. apply ok_last. now apply no_blank_cons.
      + rewrite join_cons in J by (inversion Hps; discriminate).
        apply ok_cons; [| | assumption].
        * apply no_blank_cons; [assumption|].
          intros [-> [u ->]]. apply Hc. split; [reflexivity|].
          rewrite <- J. simpl. eauto.
        * apply open_end_cons; [assumption|].
          intros [-> ->]. apply Hc. split; [reflexivity|].
          rewrite <- J. simpl. eauto. }
  now apply (H (length s)).
Qed.

Lemma paragraphs_ok_app_l (g r : list str) :
  paragraphs_ok (g ++ r) -> g <> [] -> paragraphs_ok g.
Proof.
  revert r. induction g as [|p g IH]; intros r H Hg; [congruence|].
  destruct g as [|q g].
  - apply ok_last. inversion H; assumption.
  - inversion H as [|? ? Hb He Hps]. apply ok_cons; try assumption.
    apply (IH r); [assumption | discriminate].
Qed.

Lemma paragraphs_ok_app_r (l g : list str) :
  paragraphs_ok (l ++ g) -> g <> [] -> paragraphs_ok g.
Proof.
  induction l as [|p l IH]; intros H Hg; [assumption|].
  inversion H as [? ? | ? ? Hb He Hps]; subst.
  - destruct l, g; simpl in *; congruence.
  - now apply IH.
Qed.

Lemma paragraphs_ok_concat (groups : list (list str)) :
  paragraphs_ok (concat groups) ->
  Forall (fun g => g <> []) groups ->
  Forall paragraphs_ok groups.
Proof.
  induction groups as [|g groups IH]; intros H Hne; [constructor|].
  inversion Hne as [|? ? Hg Hrest]; subst. simpl in H. constructor.
  - now apply (paragraphs_ok_app_l g (concat groups)).
  - destruct groups as [|g' groups]; [constructor|].
    apply IH; [|assumption].
    apply (paragraphs_ok_app_r g); [assumption|].
    inversion Hrest; subst. destruct g'; [congruence | discriminate].
Qed.

(** Pages made of consecutive paragraphs of [content] give these
    paragraphs back, one page after the other. *)
Lemma paragraphs_of_pages (content : str) (groups : list (list str)) :
  Forall (fun g => g <> []) groups ->
  concat groups = split content BLANK_LINE ->
  concat (map paragraphs_of (map (join BLANK_LINE) groups))
  = split content BLANK_LINE.
Proof.
  intros Hne Hcat. rewrite <- Hcat. f_equal.
  pose proof (split_paragraphs_ok content) as Hok. rewrite <- Hcat in Hok.
  apply paragraphs_ok_concat in Hok; [|assumption].
  clear Hne Hcat. induction Hok as [|g groups Hg _ IH]; [reflexivity|].
  simpl. unfold paragraphs_of at 1. rewrite split_join by assumption.
  now rewrite IH.
Qed.

(** [para.count('\n')] is the number of newline characters. *)
Lemma count_newlines (para : str) :
  count para NEWLINE = len (filter (N.eqb NL) para).
Proof.
  unfold count, NEWLINE. induction para as [|c para IH]; [reflexivity|].
  cbn [count_from startswith length Nat.sub filter].
  rewrite andb_true_r, N.eqb_sym.
  destruct (N.eqb NL c); rewrite IH; unfold len; cbn [length]; lia.
Qed.

Lemma count_nonneg (para : str) : 0 <= count para NEWLINE.
Proof. rewrite count_newlines. apply len_nonneg. Qed.

End Paragraphs.

(* ================================================================== *)
(** * The packing loop *)

Section Pagination.

Variable console : Console.

Lemma para_lines_defined (para : str) :
  width console <> 10 ->
  para_lines console para
  = Ok (len para / (width console - 10) + count para NEWLINE + 2).
Proof.
  intros Hw. unfold para_lines, floordiv.
  destruct (Z.eqb_spec (width console - 10) 0); [lia | reflexivity].
Qed.

Lemma para_lines_raises (para : str) :
  width console = 10 -> para_lines console para = Raise ZeroDivisionError.
Proof. intros Hw. unfold para_lines, floordiv. now rewrite Hw. Qed.

Lemma para_lines_Ok (para : str) (n : Z) :
  para_lines console para = Ok n -> width console <> 10.
Proof. intros H Hw. rewrite para_lines_raises in H by assumption. discriminate. Qed.

(** The three branches of the loop body. *)
Lemma loop_body_cases (h : Z) (st st' : packing) (para : str) :
  loop_body console h st para = Ok st' ->
  exists n, para_lines console para = Ok n /\
    ((l_current_lines st + n > h /\ l_current_page st <> [] /\
      st' = {| l_pages := l_pages st ++ [join BLANK_LINE (l_current_page st)];
               l_current_page := [para]; l_current_lines := n |})
     \/ (l_current_lines st + n > h /\ l_current_page st = [] /\
         st' = {| l_pages := l_pages st ++ [para];
                  l_current_page := []; l_current_lines := 0 |})
     \/ (l_current_lines st + n <= h /\
         st' = {| l_pages := l_pages st;
                  l_current_page := l_current_page st ++ [para];
                  l_current_lines := l_current_lines st + n |})).
Proof.
  unfold loop_body. destruct (para_lines console para) as [n|e]; simpl; [|discriminate].
  intros H. exists n. split; [reflexivity|].
  destruct (Z.gtb_spec (l_current_lines st + n) h).
  - destruct (l_current_page st) eqn:E; simpl in H; injection H as <-.
    + right; left. repeat split; lia.
    + left. repeat split; try lia; discriminate.
  - right; right. injection H as <-. split; [lia | reflexivity].
Qed.

(** Ghost view of the loop: the pages flushed so far are groups of
    consecutive paragraphs, none empty, and with the page in the making
    they hold every paragraph met so far, in order. *)
Lemma loop_body_groups (h : Z) (st st' : packing) (para : str)
      (done : list (list str)) :
  loop_body console h st para = Ok st' ->
  l_pages st = map (join BLANK_LINE) done ->
  Forall (fun g => g <> []) done ->
  exists done',
    l_pages st' = map (join BLANK_LINE) done' /\
    Forall (fun g => g <> []) done' /\
    concat done' ++ l_current_page st'
    = (concat done ++ l_current_page st) ++ [para].
Proof.
  intros H Hp Hne. apply loop_body_cases in H as [n [_ [H | [H | H]]]].
  - destruct H as [_ [Hcp ->]]. exists (done ++ [l_current_page st]). simpl.
    rewrite Hp, map_app, concat_app. simpl. rewrite app_nil_r.
    split; [|split]; try reflexivity.
    apply Forall_app. split; [assumption | now constructor].
  - destruct H as [_ [Hcp ->]]. exists (done ++ [[para]]). simpl.
    rewrite Hp, Hcp, map_app, concat_app. simpl. rewrite !app_nil_r.
    split; [|split]; try reflexivity.
    apply Forall_app. split; [assumption | constructor; [discriminate | constructor]].
  - destruct H as [_ ->]. exists done. simpl.
    rewrite app_assoc. split; [|split]; try reflexivity; assumption.
Qed.

Lemma for_paragraphs_groups (h : Z) (paragraphs : list str) :
  forall (st st' : packing) (done : list (list str)),
  for_paragraphs console h paragraphs st = Ok st' ->
  l_pages st = map (join BLANK_LINE) done ->
  Forall (fun g => g <> []) done ->
  exists done',
    l_pages st' = map (join BLANK_LINE) done' /\
    Forall (fun g => g <> []) done' /\
    concat done' ++ l_current_page st'
    = (concat done ++ l_current_page st) ++ paragraphs.
Proof.
  induction paragraphs as [|para rest IH]; intros st st' done H Hp Hne.
  - injection H as <-. exists done. rewrite app_nil_r. auto.
  - simpl in H. destruct (loop_body console h st para) as [st1|e] eqn:E;
      simpl in H; [|discriminate].
    destruct (loop_body_groups h st st1 para done E Hp Hne) as [d1 [Hp1 [Hne1 Hc1]]].
    destruct (IH st1 st' d1 H Hp1 Hne1) as [d2 [Hp2 [Hne2 Hc2]]].
    exists d2. repeat split; try assumption.
    rewrite Hc2, Hc1, <- app_assoc. reflexivity.
Qed.

(** The loop runs to its end unless the terminal is 10 columns wide. *)
Lemma for_paragraphs_defined (h : Z) (paragraphs : list str) :
  width console <> 10 ->
  forall st, exists st', for_paragraphs console h paragraphs st = Ok st'.
Proof.
  intros Hw. induction paragraphs as [|para rest IH]; intros st; simpl; [eauto|].
  unfold loop_body. rewrite para_lines_defined by assumption. simpl.
  destruct (_ >? h); [destruct (truthy _)|]; simpl; apply IH.
Qed.

Lemma for_paragraphs_raises (h : Z) (paragraphs : list str) (st : packing) :
  width console = 10 -> paragraphs <> [] ->
  for_paragraphs console h paragraphs st = Raise ZeroDivisionError.
Proof.
  intros Hw Hne. destruct paragraphs as [|para rest]; [congruence|].
  simpl. unfold loop_body. now rewrite para_lines_raises.
Qed.

Lemma for_paragraphs_app (h : Z) (ps1 ps2 : list str) (st : packing) :
  for_paragraphs console h (ps1 ++ ps2) st
  = (st1 <- for_paragraphs console h ps1 st ;; for_paragraphs console h ps2 st1).
Proof.
  revert st. induction ps1 as [|para ps1 IH]; intros st; [reflexivity|].
  simpl. destruct (loop_body console h st para); simpl; [apply IH | reflexivity].
Qed.

(** An empty page in the making has no line counted. *)
Lemma for_paragraphs_lines (h : Z) (paragraphs : list str) :
  forall st st',
  for_paragraphs console h paragraphs st = Ok st' ->
  (l_current_page st = [] -> l_current_lines st = 0) ->
  l_current_page st' = [] -> l_current_lines st' = 0.
Proof.
  induction paragraphs as [|para rest IH]; intros st st' H Hinv.
  - injection H as <-. assumption.
  - simpl in H. destruct (loop_body console h st para) as [st1|e] eqn:E;
      simpl in H; [|discriminate].
    apply (IH st1 st' H).
    apply loop_body_cases in E as [n [_ [E | [E | E]]]].
    + destruct E as [_ [_ ->]]. simpl. discriminate.
    + destruct E as [_ [_ ->]]. reflexivity.
    + destruct E as [_ ->]. simpl. intros E. now destruct (l_current_page st).
Qed.

(** Flushed pages stay where they are. *)
Lemma for_paragraphs_pages_grow (h : Z) (paragraphs : list str) :
  forall st st',
  for_paragraphs console h paragraphs st = Ok st' ->
  exists more, l_pages st' = l_pages st ++ more.
Proof.
  induction paragraphs as [|para rest IH]; intros st st' H.
  - injection H as <-. exists []. now rewrite app_nil_r.
  - simpl in H. destruct (loop_body console h st para) as [st1|e] eqn:E;
      simpl in H; [|discriminate].
    destruct (IH st1 st' H) as [more Hm]. rewrite Hm.
    apply loop_body_cases in E as [n [_ [E | [E | E]]]].
    + destruct E as [_ [_ ->]]. simpl. rewrite <- app_assoc. eauto.
    + destruct E as [_ [_ ->]]. simpl. rewrite <- app_assoc. eauto.
    + destruct E as [_ ->]. simpl. eauto.
Qed.

(** *** What [paginate] returns *)

Lemma paginate_groups (content : str) (pages : list str) :
  paginate console content = Ok pages ->
  exists groups,
    pages = map (join BLANK_LINE) groups /\
    Forall (fun g => g <> []) groups /\
    concat groups = split content BLANK_LINE.
Proof.
  unfold paginate.
  destruct (for_paragraphs console (height console - 10)
              (split content BLANK_LINE) packing0) as [st|e] eqn:E;
    simpl; [|discriminate].
  intros H. injection H as <-.
  destruct (for_paragraphs_groups _ _ _ _ [] E eq_refl (Forall_nil _))
    as [done [Hp [Hne Hc]]].
  simpl in Hc. rewrite Hp.
  destruct (l_current_page st) as [|q cp] eqn:Ecp; cbn [truthy].
  - rewrite app_nil_r in Hc.
    destruct done as [|g done].
    + simpl in Hc. symmetry in Hc. now apply split_not_nil in Hc.
    + cbn [map truthy]. exists (g :: done). auto.
  - rewrite truthy_snoc. exists (done ++ [q :: cp]).
    split; [now rewrite map_app | split].
    + apply Forall_app. split; [assumption | constructor; [discriminate | constructor]].
    + rewrite concat_app. simpl. now rewrite app_nil_r.
Qed.

Lemma paginate_not_nil (content : str) (pages : list str) :
  paginate console content = Ok pages -> pages <> [].
Proof.
  intros H. apply paginate_groups in H as [groups [-> [_ Hc]]].
  destruct groups; [|discriminate].
  simpl in Hc. symmetry in Hc. now apply split_not_nil in Hc.
Qed.

Lemma paginate_paragraphs (content : str) (pages : list str) :
  paginate console content = Ok pages ->
  concat (map paragraphs_of pages) = split content BLANK_LINE.
Proof.
  intros H. apply paginate_groups in H as [groups [-> [Hne Hc]]].
  now apply paragraphs_of_pages.
Qed.

Lemma paginate_defined (content : str) :
  width console <> 10 -> exists pages, paginate console content = Ok pages.
Proof.
  intros Hw. unfold paginate.
  destruct (for_paragraphs_defined (height console - 10)
              (split content BLANK_LINE) Hw packing0) as [st ->].
  simpl. eauto.
Qed.

Lemma paginate_raises (content : str) :
  width console = 10 -> paginate console content = Raise ZeroDivisionError.
Proof.
  intros Hw. unfold paginate.
  rewrite for_paragraphs_raises; [reflexivity | assumption | apply split_not_nil].
Qed.

End Pagination.

(* ================================================================== *)
(** * Pagination: the statements *)

(** When the estimate is defined, pagination returns pages, at least one,
    and the paragraphs of the pages are the paragraphs of the content. *)
Lemma paginate_complete (console : Console) (content : str) :
  width console <> 10 ->
  exists pages,
    paginate console content = Ok pages /\
    pages <> [] /\
    concat (map paragraphs_of pages) = split content BLANK_LINE.
Proof.
  intros Hw. destruct (paginate_defined console content Hw) as [pages H].
  exists pages. split; [assumption | split].
  - eapply paginate_not_nil; eassumption.
  - eapply paginate_paragraphs; eassumption.
Qed.

(** C1. On a terminal 10 columns wide [console.width - 10] is 0 and the
    estimate of the first paragraph divides by it: pagination raises
    [ZeroDivisionError] for every content and every height, so it returns
    no page at all for the non-empty content ["a"] at viewport width 10. *)
Theorem paginate_width_10_raises :
  paginate console_10x24 (lit "a") = Raise ZeroDivisionError /\
  forall (h : Z) (content : str),
    paginate {| width := 10; height := h |} content = Raise ZeroDivisionError.
Proof.
  split; [reflexivity|].
  intros h content. now apply paginate_raises.
Qed.

(** C2. For the empty content [split] returns one empty paragraph, which
    becomes a page: the result is the single empty page, not the
    placeholder.  The placeholder is returned only for a section whose
    text is the placeholder itself. *)
Theorem paginate_empty_content (console : Console) :
  width console <> 10 ->
  paginate console [] = Ok [[]] /\
  paginate console [] <> Ok [NO_CONTENT] /\
  forall content, paginate console content = Ok [NO_CONTENT] -> content = NO_CONTENT.
Proof.
  intros Hw.
  assert (E : paginate console [] = Ok [[]]).
  { unfold paginate. cbn [split split_from for_paragraphs].
    unfold loop_body. rewrite para_lines_defined by assumption.
    cbn [bind packing0 l_current_lines l_current_page l_pages len length count count_from].
    destruct (_ >? _); reflexivity. }
  split; [assumption | split].
  - rewrite E. discriminate.
  - intros content H. apply paginate_paragraphs in H.
    rewrite <- (join_split BLANK_LINE content BLANK_LINE_not_nil), <- H.
    reflexivity.
Qed.

Lemma paginate_empty_content_witness :
  width console_80x24 <> 10 /\
  paginate console_80x24 [] = Ok [[]] /\
  paginate console_80x24 [] <> Ok [NO_CONTENT] /\
  forall content, paginate console_80x24 content = Ok [NO_CONTENT] -> content = NO_CONTENT.
Proof.
  split; [simpl; lia | apply (paginate_empty_content console_80x24); simpl; lia].
Defined.

Lemma Ok_inj {A : Type} (a b : A) : Ok a = Ok b -> a = b.
Proof. congruence. Qed.

Lemma floor_ceil (a d : Z) : 0 < d -> a / d <= ceil_div a d <= a / d + 1.
Proof.
  intros Hd. unfold ceil_div.
  pose proof (Z.div_mod a d ltac:(lia)) as Ha.
  pose proof (Z.mod_pos_bound a d Hd) as Hr.
  pose proof (Z.div_mod (- a) d ltac:(lia)) as Hb.
  pose proof (Z.mod_pos_bound (- a) d Hd) as Hs.
  nia.
Qed.

(** C3, the claim as stated fails.  No margin and no fixed overhead make
    the estimate of the code the ceiling formula: at width 80 the empty
    paragraph asks for an overhead of 2 and the paragraph ["a"] for an
    overhead of 1.  And the divisor is not guarded: at width 10 the
    estimate raises. *)
Lemma para_lines_not_spec :
  (~ exists margin fixedOverhead, forall para,
       para_lines console_80x24 para
       = Ok (spec_para_lines margin fixedOverhead (width console_80x24) para)) /\
  para_lines console_10x24 (lit "a") = Raise ZeroDivisionError.
Proof.
  split; [|reflexivity].
  intros [margin [f H]].
  pose proof (H []) as H0. pose proof (H (lit "a")) as H1.
  change (para_lines console_80x24 []) with (Ok (A := Z) 2) in H0.
  change (para_lines console_80x24 (lit "a")) with (Ok (A := Z) 2) in H1.
  unfold spec_para_lines, ceil_div in H0, H1.
  change (width console_80x24) with 80 in H0, H1.
  change (count [] NEWLINE) with 0 in H0.
  change (count (lit "a") NEWLINE) with 0 in H1.
  change (- len (@nil char)) with 0 in H0.
  change (- len (lit "a")) with (-1) in H1.
  apply Ok_inj in H0. apply Ok_inj in H1.
  rewrite Z.div_0_l in H0 by lia.
  assert (E : -1 / Z.max 1 (80 - margin) = -1).
  { symmetry. apply (Z.div_unique _ _ _ (Z.max 1 (80 - margin) - 1)); lia. }
  rewrite E in H1. lia.
Qed.

(** C3, amended.  On a terminal wider than 10 columns the estimate is
    defined and is [len(para) // (width - 10)], a floor division by a
    positive divisor, plus the number of newline characters, plus 2.  It
    lies between the ceiling formula with overhead 1 and the ceiling
    formula with overhead 2 (margin 10). *)
Theorem para_lines_floor (console : Console) (para : str) :
  10 < width console ->
  exists n,
    para_lines console para = Ok n /\
    n = len para / (width console - 10) + len (filter (N.eqb NL) para) + 2 /\
    0 <= len para / (width console - 10) /\
    spec_para_lines 10 1 (width console) para <= n
      <= spec_para_lines 10 2 (width console) para.
Proof.
  intros Hw. eexists. split; [apply para_lines_defined; lia|].
  rewrite count_newlines. split; [reflexivity | split].
  - apply Z.div_pos; [apply len_nonneg | lia].
  - unfold spec_para_lines. rewrite count_newlines.
    replace (Z.max 1 (width console - 10)) with (width console - 10) by lia.
    pose proof (floor_ceil (len para) (width console - 10) ltac:(lia)). lia.
Qed.

Lemma para_lines_floor_witness :
  10 < width console_80x24 /\
  exists n,
    para_lines console_80x24 (lit "a") = Ok n /\
    n = len (lit "a") / (width console_80x24 - 10)
        + len (filter (N.eqb NL) (lit "a")) + 2 /\
    0 <= len (lit "a") / (width console_80x24 - 10) /\
    spec_para_lines 10 1 (width console_80x24) (lit "a") <= n
      <= spec_para_lines 10 2 (width console_80x24) (lit "a").
Proof.
  split; [simpl; lia | apply (para_lines_floor console_80x24 (lit "a")); simpl; lia].
Defined.

(** C4. Pagination is a loop over the finite list of paragraphs: it ends
    for every input, with pages that hold every paragraph once and in
    order, or, on a terminal 10 columns wide, with [ZeroDivisionError].
    When the loop reaches a paragraph with an empty page in the making
    (the paragraphs [before] it were all flushed) and the estimate of that
    paragraph alone exceeds the budget [console.height - 10], the
    paragraph is appended to the pages as it is: it is the page that
    follows the pages flushed so far. *)
Theorem oversized_paragraph_own_page (console : Console) (content : str) :
  ((width console <> 10 ->
    exists pages,
      paginate console content = Ok pages /\
      concat (map paragraphs_of pages) = split content BLANK_LINE)
   /\ (width console = 10 ->
       paginate console content = Raise ZeroDivisionError))
  /\
  forall (before after : list str) (para : str) (st : packing) (n : Z),
    split content BLANK_LINE = before ++ para :: after ->
    for_paragraphs console (height console - 10) before packing0 = Ok st ->
    l_current_page st = [] ->
    para_lines console para = Ok n ->
    n > height console - 10 ->
    loop_body console (height console - 10) st para
    = Ok {| l_pages := l_pages st ++ [para];
            l_current_page := []; l_current_lines := 0 |}
    /\ exists pages later,
         paginate console content = Ok pages /\
         pages = l_pages st ++ para :: later.
Proof.
  split.
  { split.
    - intros Hw. destruct (paginate_complete console content Hw) as [pages [H [_ Hc]]].
      eauto.
    - apply paginate_raises. }
  intros before after para st n Hsplit Hbefore Hempty Hn Hover.
  assert (Hlines : l_current_lines st = 0).
  { eapply for_paragraphs_lines; [eassumption | reflexivity | assumption]. }
  assert (Hbody : loop_body console (height console - 10) st para
                  = Ok {| l_pages := l_pages st ++ [para];
                          l_current_page := []; l_current_lines := 0 |}).
  { unfold loop_body. rewrite Hn, Hempty, Hlines. cbn [bind truthy].
    destruct (Z.gtb_spec (0 + n) (height console - 10)); [reflexivity | lia]. }
  split; [assumption|].
  destruct (paginate_defined console content (para_lines_Ok console para n Hn))
    as [pages Hpages].
  exists pages. pose proof Hpages as Hp. unfold paginate in Hp.
  rewrite Hsplit, for_paragraphs_app, Hbefore in Hp. cbn [bind for_paragraphs] in Hp.
  rewrite Hbody in Hp. cbn [bind] in Hp.
  destruct (for_paragraphs console (height console - 10) after _) as [st'|e] eqn:E;
    cbn [bind] in Hp; [|discriminate].
  apply for_paragraphs_pages_grow in E as [more Hmore]. cbn [l_pages] in Hmore.
  apply Ok_inj in Hp. rewrite Hmore in Hp.
  destruct (truthy (l_current_page st')).
  - rewrite truthy_snoc in Hp. exists (more ++ [join BLANK_LINE (l_current_page st')]).
    split; [assumption|]. rewrite <- Hp, <- !app_assoc. reflexivity.
  - exists more. split; [assumption|]. rewrite <- Hp, <- app_assoc.
    cbn [app]. now rewrite truthy_mid.
Qed.

Lemma oversized_paragraph_own_page_witness :
  split tall_content BLANK_LINE
  = [three_lines "x"] ++ three_lines "y" :: [lit "z"] /\
  for_paragraphs console_80x13 (height console_80x13 - 10) [three_lines "x"] packing0
  = Ok {| l_pages := [three_lines "x"]; l_current_page := []; l_current_lines := 0 |} /\
  para_lines console_80x13 (three_lines "y") = Ok 4 /\
  4 > height console_80x13 - 10 /\
  exists pages later,
    paginate console_80x13 tall_content = Ok pages /\
    pages = [three_lines "x"] ++ three_lines "y" :: later.
Proof.
  split; [reflexivity | split; [reflexivity | split; [reflexivity | split; [reflexivity|]]]].
  apply (proj2 (oversized_paragraph_own_page console_80x13 tall_content)
           [three_lines "x"] [lit "z"] (three_lines "y")
           {| l_pages := [three_lines "x"]; l_current_page := []; l_current_lines := 0 |}
           4); reflexivity.
Defined.

(* ================================================================== *)
(** * [display_current]: the clamp and the page that is read *)

Section Display.

Lemma getitem_in_range {A : Type} (l : list A) (i : Z) :
  0 <= i < len l ->
  exists x, getitem l i = Ok x /\ nth_error l (Z.to_nat i) = Some x.
Proof.
  intros Hi. unfold getitem.
  destruct (Z.ltb_spec i 0); [lia|].
  destruct (Z.leb_spec 0 i); [|lia].
  destruct (Z.ltb_spec i (len l)); [|lia]. cbn [andb].
  destruct (nth_error l (Z.to_nat i)) as [x|] eqn:E; [eauto|].
  apply nth_error_None in E. unfold len in Hi. lia.
Qed.

Lemma getitem_valid {A : Type} (l : list A) (i : Z) :
  - len l <= i < len l -> exists x, getitem l i = Ok x.
Proof.
  intros Hi. unfold getitem.
  set (j := if i <? 0 then i + len l else i).
  assert (Hj : 0 <= j < len l) by (subst j; destruct (Z.ltb_spec i 0); lia).
  destruct (Z.leb_spec 0 j); [|lia].
  destruct (Z.ltb_spec j (len l)); [|lia]. cbn [andb].
  destruct (nth_error l (Z.to_nat j)) as [x|] eqn:E; [eauto|].
  apply nth_error_None in E. unfold len in Hj. lia.
Qed.

Lemma getitem_Ok {A : Type} (l : list A) (i : Z) (x : A) :
  getitem l i = Ok x -> - len l <= i < len l.
Proof.
  unfold getitem. set (j := if i <? 0 then i + len l else i).
  destruct ((0 <=? j) && (j <? len l)) eqn:E; [intros _ | discriminate].
  apply andb_true_iff in E as [E1 E2].
  apply Z.leb_le in E1. apply Z.ltb_lt in E2.
  pose proof (len_nonneg l). subst j. destruct (Z.ltb_spec i 0); lia.
Qed.

Lemma clamp_page_in_range (page : Z) (pages : list str) :
  pages <> [] -> 0 <= clamp_page page pages < len pages.
Proof.
  intros Hne. apply truthy_true, truthy_len in Hne. unfold clamp_page.
  destruct (Z.geb_spec page (len pages)); [lia|].
  destruct (Z.ltb_spec page 0); lia.
Qed.

(** What a display that returns has done. *)
Lemma display_current_Ok (console : Console) (self self' : Reader)
      (out : option str) :
  sections self <> [] ->
  display_current console self = Ok (self', out) ->
  exists section page,
    getitem (sections self) (current_index self) = Ok section /\
    paginate console (Sec.content section) = Ok (pages self') /\
    sections self' = sections self /\
    current_index self' = current_index self /\
    current_page self' = clamp_page (current_page self) (pages self') /\
    0 <= current_page self' < len (pages self') /\
    getitem (pages self') (current_page self') = Ok page /\
    out = Some page.
Proof.
  intros Hne. unfold display_current.
  apply truthy_true in Hne. rewrite Hne. cbn [negb].
  destruct (getitem (sections self) (current_index self)) as [section|e] eqn:Es;
    cbn [bind]; [|discriminate].
  destruct (paginate console (Sec.content section)) as [pages'|e] eqn:Ep;
    cbn [bind]; [|discriminate].
  destruct (getitem pages' (clamp_page (current_page self) pages')) as [page|e] eqn:Eg;
    cbn [bind]; [|discriminate].
  destruct (truediv_defined (len (sections self))); cbn [bind]; [|discriminate].
  destruct (truediv_defined (len pages')); cbn [bind]; [|discriminate].
  intros H. injection H as <- <-. cbn [sections current_index current_page pages].
  exists section, page. repeat split; try assumption; try reflexivity;
    apply clamp_page_in_range; eapply paginate_not_nil; eassumption.
Qed.

(** A display returns as soon as the section index is one Python accepts
    and the terminal is not 10 columns wide. *)
Lemma display_current_defined (console : Console) (self : Reader) :
  sections self <> [] ->
  - len (sections self) <= current_index self < len (sections self) ->
  width console <> 10 ->
  exists self' page, display_current console self = Ok (self', Some page).
Proof.
  intros Hne Hci Hw. unfold display_current.
  pose proof Hne as Ht. apply truthy_true in Ht. rewrite Ht. cbn [negb].
  destruct (getitem_valid _ _ Hci) as [section ->]. cbn [bind].
  destruct (paginate_complete console (Sec.content section) Hw)
    as [pages' [-> [Hp _]]]. cbn [bind].
  destruct (getitem_in_range pages' _
              (clamp_page_in_range (current_page self) pages' Hp)) as [page [-> _]].
  cbn [bind]. unfold truediv_defined.
  apply truthy_true, truthy_len in Hne. apply truthy_true, truthy_len in Hp.
  destruct (Z.eqb_spec (len (sections self)) 0); [lia|].
  destruct (Z.eqb_spec (len pages') 0); [lia|].
  cbn [bind]. eauto.
Qed.

Lemma display_current_raises (console : Console) (self : Reader) :
  sections self <> [] ->
  - len (sections self) <= current_index self < len (sections self) ->
  width console = 10 ->
  display_current console self = Raise ZeroDivisionError.
Proof.
  intros Hne Hci Hw. unfold display_current.
  apply truthy_true in Hne. rewrite Hne. cbn [negb].
  destruct (getitem_valid _ _ Hci) as [section ->]. cbn [bind].
  now rewrite paginate_raises.
Qed.

End Display.

(** C10. With at least one section and a section index that Python
    accepts, [display_current] paginates the section, then sets the page
    index to [len(pages) - 1] when it is [len(pages)] or more and to 0 when
    it is negative, and reads [pages[current_page]] at an index within
    [0, len(pages))]: the lookup returns a page and [IndexError] is never
    raised.  (The only exception is the division of the estimate on a
    terminal 10 columns wide, which is raised before any page is read.) *)
Theorem display_current_clamps (console : Console) (self : Reader) :
  sections self <> [] ->
  - len (sections self) <= current_index self < len (sections self) ->
  display_current console self <> Raise IndexError /\
  (width console = 10 -> display_current console self = Raise ZeroDivisionError) /\
  (width console <> 10 ->
   exists self' page,
     display_current console self = Ok (self', Some page) /\
     current_page self'
     = (if current_page self >=? len (pages self') then len (pages self') - 1
        else if current_page self <? 0 then 0
        else current_page self) /\
     0 <= current_page self' < len (pages self') /\
     getitem (pages self') (current_page self') = Ok page /\
     nth_error (pages self') (Z.to_nat (current_page self')) = Some page).
Proof.
  intros Hne Hci.
  assert (H10 : width console = 10 ->
                display_current console self = Raise ZeroDivisionError)
    by now apply display_current_raises.
  assert (Hok : width console <> 10 ->
                exists self' page, display_current console self = Ok (self', Some page))
    by now apply display_current_defined.
  split; [|split; [assumption|]].
  - destruct (Z.eq_dec (width console) 10) as [Hw|Hw].
    + rewrite H10 by assumption. discriminate.
    + destruct (Hok Hw) as [self' [page ->]]. discriminate.
  - intros Hw. destruct (Hok Hw) as [self' [page H]]. exists self', page.
    split; [assumption|].
    destruct (display_current_Ok _ _ _ _ Hne H)
      as [section [page' [_ [_ [_ [_ [Hc [Hr [Hg Ho]]]]]]]]].
    injection Ho as <-.
    split; [exact Hc | split; [assumption | split; [assumption|]]].
    destruct (getitem_in_range _ _ Hr) as [x [Hx Hn]]. congruence.
Qed.

(* ================================================================== *)
(** * [navigate] *)

Section Navigate.

Lemma in_range_spec (i n : Z) : in_range i n = true <-> 0 <= i < n.
Proof. unfold in_range. rewrite andb_true_iff, Z.leb_le, Z.ltb_lt. tauto. Qed.

Lemma in_range_false (i n : Z) : in_range i n = false <-> ~ 0 <= i < n.
Proof. rewrite <- in_range_spec. destruct (in_range i n); split; congruence. Qed.

(** [navigate] on each of the six directions. *)
Lemma navigate_section (d : Z) (self : Reader) :
  d = PREV_SECTION \/ d = NEXT_SECTION ->
  navigate d self =
    if in_range (current_index self + d) (len (sections self))
    then (set_position self (current_index self + d) 0, true)
    else (self, false).
Proof. intros [-> | ->]; reflexivity. Qed.

Lemma navigate_prev_page (self : Reader) :
  navigate PREV_PAGE self =
    if in_range (current_page self - 1) (len (pages self))
    then (set_position self (current_index self) (current_page self - 1), true)
    else if in_range (current_index self - 1) (len (sections self))
         then (set_position self (current_index self - 1) (len (pages self) - 1), true)
         else (self, false).
Proof. reflexivity. Qed.

Lemma navigate_next_page (self : Reader) :
  navigate NEXT_PAGE self =
    if in_range (current_page self + 1) (len (pages self))
    then (set_position self (current_index self) (current_page self + 1), true)
    else if in_range (current_index self + 1) (len (sections self))
         then (set_position self (current_index self + 1) 0, true)
         else (self, false).
Proof. reflexivity. Qed.

Lemma navigate_jump_start (self : Reader) :
  navigate JUMP_START self = (set_position self 0 0, true).
Proof. reflexivity. Qed.

Lemma navigate_jump_end (self : Reader) :
  navigate JUMP_END self
  = (set_position self (len (sections self) - 1) (len (pages self) - 1), true).
Proof. reflexivity. Qed.

Lemma navigate_other (d : Z) (self : Reader) :
  ~ operation d -> navigate d self = (self, false).
Proof.
  intros Hd. unfold navigate.
  repeat match goal with
         | |- context [?a =? ?b] =>
             destruct (Z.eqb_spec a b);
             [exfalso; apply Hd; subst; unfold operation; simpl; tauto|]
         end.
  reflexivity.
Qed.

Lemma operation_dec (d : Z) : {operation d} + {~ operation d}.
Proof. apply in_dec, Z.eq_dec. Qed.

(** [navigate] never touches the sections nor the pages. *)
Lemma navigate_keeps_lists (d : Z) (self : Reader) :
  sections (fst (navigate d self)) = sections self /\
  pages (fst (navigate d self)) = pages self.
Proof.
  destruct (operation_dec d) as [Hd | Hd]; [|now rewrite navigate_other].
  unfold operation in Hd. simpl in Hd.
  destruct Hd as [<- | [<- | [<- | [<- | [<- | [<- | []]]]]]];
    rewrite ?navigate_prev_page, ?navigate_next_page, ?navigate_jump_start,
      ?navigate_jump_end, ?navigate_section by auto;
    repeat match goal with |- context [in_range ?i ?n] => destruct (in_range i n) end;
    split; reflexivity.
Qed.

(** Closes a goal saying that a direction which moved was not past a
    boundary. *)
Ltac not_past_boundary :=
  unfold past_boundary, PREV_SECTION, NEXT_SECTION, PREV_PAGE, NEXT_PAGE,
    JUMP_START, JUMP_END;
  intuition lia.

(** Either nothing changes and [False] is returned, or [True] is returned
    and both indices are those of the new position. *)
Lemma navigate_cases (d : Z) (self : Reader) :
  (navigate d self = (self, false) /\ (operation d -> past_boundary self d))
  \/ (exists index page,
        navigate d self = (set_position self index page, true) /\
        new_position self d (index, page) /\ ~ past_boundary self d).
Proof.
  destruct (operation_dec d) as [Hd | Hd];
    [|left; split; [now apply navigate_other | tauto]].
  unfold operation in Hd. simpl in Hd.
  destruct Hd as [<- | [<- | [<- | [<- | [<- | [<- | []]]]]]].
  - rewrite navigate_section by auto.
    destruct (in_range _ _) eqn:E.
    + right. apply in_range_spec in E. do 2 eexists. split; [reflexivity|].
      split; [apply np_section; auto|].
      not_past_boundary.
    + left. apply in_range_false in E. split; [reflexivity|]. intros _. left. auto.
  - rewrite navigate_section by auto.
    destruct (in_range _ _) eqn:E.
    + right. apply in_range_spec in E. do 2 eexists. split; [reflexivity|].
      split; [apply np_section; auto|].
      not_past_boundary.
    + left. apply in_range_false in E. split; [reflexivity|]. intros _. left. auto.
  - rewrite navigate_prev_page.
    destruct (in_range (current_page self - 1) _) eqn:E1.
    + right. apply in_range_spec in E1. do 2 eexists. split; [reflexivity|].
      split; [apply (np_page self PREV_PAGE (-1)); [auto | lia]|].
      not_past_boundary.
    + apply in_range_false in E1.
      destruct (in_range (current_index self - 1) _) eqn:E2.
      * right. apply in_range_spec in E2. do 2 eexists. split; [reflexivity|].
        split; [now apply np_prev_page_section|].
        not_past_boundary.
      * left. apply in_range_false in E2. split; [reflexivity|].
        intros _. right; left. auto.
  - rewrite navigate_next_page.
    destruct (in_range (current_page self + 1) _) eqn:E1.
    + right. apply in_range_spec in E1. do 2 eexists. split; [reflexivity|].
      split; [apply (np_page self NEXT_PAGE 1); [auto | lia]|].
      not_past_boundary.
    + apply in_range_false in E1.
      destruct (in_range (current_index self + 1) _) eqn:E2.
      * right. apply in_range_spec in E2. do 2 eexists. split; [reflexivity|].
        split; [now apply np_next_page_section|].
        not_past_boundary.
      * left. apply in_range_false in E2. split; [reflexivity|].
        intros _. right; right. auto.
  - right. do 2 eexists. split; [apply navigate_jump_start|].
    split; [apply np_start|].
    not_past_boundary.
  - right. do 2 eexists. split; [apply navigate_jump_end|].
    split; [apply np_end|].
    not_past_boundary.
Qed.

End Navigate.

(** C6. [navigate] raises nothing and leaves the sections and the pages
    alone.  For every direction it either returns [False] with [self]
    unchanged, or returns [True] with both indices set to the position
    the direction leads to; there is no third outcome.  For the six
    directions bound to keys, [False] is returned exactly when the
    direction asks for a position past the first or the last one. *)
Theorem navigate_all_or_nothing (d : Z) (self : Reader) :
  sections (fst (navigate d self)) = sections self /\
  pages (fst (navigate d self)) = pages self /\
  ((snd (navigate d self) = false /\ fst (navigate d self) = self)
   \/ (snd (navigate d self) = true /\
       new_position self d (position (fst (navigate d self))))) /\
  (operation d -> (snd (navigate d self) = false <-> past_boundary self d)).
Proof.
  destruct (navigate_keeps_lists d self) as [Hs Hp].
  split; [assumption | split; [assumption|]].
  destruct (navigate_cases d self) as [[E Hb] | [index [page [E [Hn Hb]]]]];
    rewrite E; cbn [fst snd].
  - split; [left; auto | intros Hd; split; auto].
  - split; [right; split; [reflexivity | exact Hn]|].
    intros _. split; [discriminate | tauto].
Qed.

Lemma navigate_all_or_nothing_witness :
  operation PREV_PAGE /\
  snd (navigate PREV_PAGE on_first_section) = false /\
  fst (navigate PREV_PAGE on_first_section) = on_first_section.
Proof.
  assert (Hop : operation PREV_PAGE) by (unfold operation; simpl; tauto).
  destruct (navigate_all_or_nothing PREV_PAGE on_first_section)
    as [_ [_ [Hcases Hboundary]]].
  assert (Hno : snd (navigate PREV_PAGE on_first_section) = false).
  { apply (Hboundary Hop). right; left. split; [reflexivity|].
    split; vm_compute; intros [H1 H2]; congruence. }
  split; [exact Hop | split; [exact Hno|]].
  destruct Hcases as [[_ H] | [H _]]; [exact H | congruence].
Defined.

(** C5, on the book of two sections.  The reader is on the only page of
    the second section.  [navigate(-2)] finds no page before, moves to the
    first section and sets the page index to [len(self.pages) - 1], where
    [self.pages] still holds the one page of the second section: the index
    is 0.  After the display the reader is on the first page of the first
    section, which has three pages, and not on its last one. *)
Theorem prev_page_uses_stale_pages :
  shown two_sections on_second_section /\
  navigate PREV_PAGE on_second_section
  = (set_position on_second_section 0 (len (pages on_second_section) - 1), true) /\
  press console_80x13 PREV_PAGE on_second_section
  = Ok (on_first_section, Some (lit "a")) /\
  position on_first_section = (0, 0) /\
  len (pages on_first_section) - 1 = 2.
Proof.
  split; [|repeat split].
  apply (shown_press two_sections console_80x13 NEXT_SECTION
           on_first_section on_second_section (Some (lit "d"))).
  - apply (shown_first two_sections console_80x13 on_first_section (Some (lit "a"))).
    reflexivity.
  - unfold operation. simpl. tauto.
  - reflexivity.
Qed.

Section Loop.

Variable book : list Sec.t.
Hypothesis book_not_empty : book <> [].

(** With a section in the book, a direction leaves the section index
    within the book. *)
Lemma navigate_index_in_range (d : Z) (self : Reader) :
  sections self = book ->
  0 <= current_index self < len (sections self) ->
  0 <= current_index (fst (navigate d self)) < len (sections self).
Proof.
  intros Hs Hci.
  assert (0 < len (sections self)) by (rewrite Hs; now apply truthy_len, truthy_true).
  destruct (navigate_cases d self) as [[E _] | [index [page [E [Hn _]]]]];
    rewrite E; cbn [fst]; [assumption|].
  cbn [set_position current_index]. inversion Hn; subst; lia.
Qed.

Lemma display_current_displayed (console : Console) (self self' : Reader)
      (out : option str) :
  sections self = book ->
  0 <= current_index self < len (sections self) ->
  display_current console self = Ok (self', out) ->
  displayed book self'.
Proof.
  intros Hs Hci H.
  apply display_current_Ok in H; [|now rewrite Hs].
  destruct H as [section [page [Hg [Hp [Hs' [Hi [_ [Hr _]]]]]]]].
  unfold displayed. rewrite Hs', Hi.
  split; [assumption | split; [assumption | split; [assumption|]]].
  exists console, section. auto.
Qed.

Lemma shown_displayed (self : Reader) : shown book self -> displayed book self.
Proof.
  induction 1 as [console self out H | console d self self' out _ IH Hd H].
  - apply (display_current_displayed console (init book) self out);
      [reflexivity | | assumption].
    cbn [init sections current_index].
    apply truthy_true, truthy_len in book_not_empty. lia.
  - destruct IH as [Hs [Hci _]]. unfold press in H.
    destruct (navigate_keeps_lists d self) as [Hs' _].
    apply (display_current_displayed console (fst (navigate d self)) self' out);
      [congruence | | assumption].
    rewrite Hs'. now apply navigate_index_in_range.
Qed.

(** From a displayed state every key is served unless the terminal is 10
    columns wide. *)
Lemma press_defined (console : Console) (d : Z) (self : Reader) :
  displayed book self -> width console <> 10 ->
  exists self' page, press console d self = Ok (self', Some page).
Proof.
  intros [Hs [Hci _]] Hw. unfold press.
  destruct (navigate_keeps_lists d self) as [Hs' _].
  pose proof (navigate_index_in_range d self Hs Hci) as Hi.
  apply display_current_defined; [congruence | rewrite Hs'; lia | assumption].
Qed.

End Loop.

(** C7, the claim as stated fails on a book without section: the reader
    starts at position (0, 0), the display only prints a notice, and the
    section index 0 is not below [len(sections) = 0]. *)
Lemma shown_empty_book_out_of_range :
  shown [] (init []) /\
  position (init []) = (0, 0) /\
  ~ 0 <= current_index (init []) < len (sections (init [])).
Proof.
  split; [|split; [reflexivity | vm_compute; intros [_ H]; discriminate]].
  apply (shown_first [] console_80x24 (init []) None). reflexivity.
Qed.

(** C7, amended.  In a book with at least one section, every state the
    loop shows (the first display of position (0, 0), then any sequence of
    navigation keys, each followed by the display that paginates the
    section) has its section index within the sections and its page index
    within the pages, and these pages are the pagination of the section
    the index points to.  Such states exist and the loop goes on from
    each of them: every key is served on a terminal that is not 10
    columns wide. *)
Theorem shown_position_in_range (book : list Sec.t) (self : Reader) :
  book <> [] ->
  shown book self ->
  sections self = book /\
  0 <= current_index self < len (sections self) /\
  0 <= current_page self < len (pages self) /\
  (exists console section,
      getitem (sections self) (current_index self) = Ok section /\
      paginate console (Sec.content section) = Ok (pages self)) /\
  (forall console d,
      operation d -> width console <> 10 ->
      exists self' page,
        press console d self = Ok (self', Some page) /\ shown book self').
Proof.
  intros Hne Hshown.
  pose proof (shown_displayed book Hne self Hshown) as Hd.
  pose proof Hd as [Hs [Hci [Hcp Hpages]]].
  split; [assumption | split; [assumption | split; [assumption | split; [assumption|]]]].
  intros console d Hop Hw.
  destruct (press_defined book Hne console d self Hd Hw) as [self' [page H]].
  exists self', page. split; [assumption|].
  eapply shown_press; eassumption.
Qed.

Lemma shown_position_in_range_witness :
  two_sections <> [] /\
  shown two_sections on_second_section /\
  0 <= current_index on_second_section < len (sections on_second_section) /\
  0 <= current_page on_second_section < len (pages on_second_section) /\
  exists self' page,
    press console_80x13 PREV_PAGE on_second_section = Ok (self', Some page) /\
    shown two_sections self'.
Proof.
  assert (Hne : two_sections <> []) by discriminate.
  assert (Hshown : shown two_sections on_second_section).
  { apply (shown_press two_sections console_80x13 NEXT_SECTION
             on_first_section on_second_section (Some (lit "d"))).
    - apply (shown_first two_sections console_80x13 on_first_section (Some (lit "a"))).
      reflexivity.
    - unfold operation. simpl. tauto.
    - reflexivity. }
  destruct (shown_position_in_range two_sections on_second_section Hne Hshown)
    as [_ [Hci [Hcp [_ Hnext]]]].
  split; [exact Hne | split; [exact Hshown | split; [exact Hci | split; [exact Hcp|]]]].
  apply Hnext; [unfold operation; simpl; tauto | simpl; lia].
Defined.

(** C8, the claim as stated fails on the last section, a valid index: in
    the book of two sections, from section 1 [nextSection] does nothing and
    [prevSection] then leads to section 0. *)
Lemma next_then_prev_from_last_section :
  0 <= current_index on_second_section < len (sections on_second_section) /\
  navigate NEXT_SECTION on_second_section = (on_second_section, false) /\
  position (fst (navigate PREV_SECTION (fst (navigate NEXT_SECTION on_second_section))))
  = (0, 0) /\
  current_index (fst (navigate PREV_SECTION (fst (navigate NEXT_SECTION on_second_section))))
  <> current_index on_second_section.
Proof.
  split; [vm_compute; split; congruence|].
  split; [reflexivity | split; [reflexivity | discriminate]].
Qed.

(** C8, amended.  From every section but the last, [nextSection] then
    [prevSection] both move and lead back to the section they started
    from, on page 0.  The displays that the loop runs after each key
    change nothing to that. *)
Theorem next_then_prev_section (console1 console2 : Console) (self : Reader) :
  0 <= current_index self ->
  current_index self + 1 < len (sections self) ->
  (snd (navigate NEXT_SECTION self) = true /\
   snd (navigate PREV_SECTION (fst (navigate NEXT_SECTION self))) = true /\
   position (fst (navigate PREV_SECTION (fst (navigate NEXT_SECTION self))))
   = (current_index self, 0)) /\
  (width console1 <> 10 -> width console2 <> 10 ->
   exists s1 o1 s2 o2,
     press console1 NEXT_SECTION self = Ok (s1, o1) /\
     position s1 = (current_index self + 1, 0) /\
     press console2 PREV_SECTION s1 = Ok (s2, o2) /\
     position s2 = (current_index self, 0)).
Proof.
  intros H0 H1.
  assert (E1 : navigate NEXT_SECTION self
               = (set_position self (current_index self + 1) 0, true)).
  { rewrite navigate_section by auto.
    replace (in_range _ _) with true; [reflexivity|].
    symmetry. apply in_range_spec. unfold NEXT_SECTION. lia. }
  assert (E2 : forall s, sections s = sections self ->
                         current_index s = current_index self + 1 ->
                         navigate PREV_SECTION s = (set_position s (current_index self) 0, true)).
  { intros s Hs Hi. rewrite navigate_section by auto.
    replace (in_range _ _) with true.
    - rewrite Hi. unfold PREV_SECTION. do 2 f_equal. lia.
    - symmetry. apply in_range_spec. rewrite Hs, Hi. unfold PREV_SECTION. lia. }
  assert (Hne : sections self <> []).
  { apply truthy_true, truthy_len. lia. }
  split.
  - rewrite E1. cbn [fst snd]. rewrite E2 by reflexivity. auto.
  - intros Hw1 Hw2. unfold press. rewrite E1. cbn [fst].
    destruct (display_current_defined console1
                (set_position self (current_index self + 1) 0))
      as [s1 [p1 D1]]; cbn [set_position sections current_index];
      [assumption | lia | assumption |].
    destruct (display_current_Ok console1
                (set_position self (current_index self + 1) 0) s1 (Some p1) Hne D1)
      as [_ [_ [_ [_ [Hs1 [Hi1 [Hc1 [Hr1 _]]]]]]]].
    cbn [set_position sections current_index current_page] in Hs1, Hi1, Hc1.
    assert (Hp1 : current_page s1 = 0).
    { rewrite Hc1. unfold clamp_page.
      destruct (Z.geb_spec 0 (len (pages s1))); [lia | reflexivity]. }
    pose proof (E2 s1 Hs1 Hi1) as E3.
    destruct (display_current_defined console2 (set_position s1 (current_index self) 0))
      as [s2 [p2 D2]]; cbn [set_position sections current_index];
      [congruence | rewrite Hs1; lia | assumption |].
    assert (Hne1 : sections (set_position s1 (current_index self) 0) <> [])
      by (cbn [set_position sections]; congruence).
    destruct (display_current_Ok console2
                (set_position s1 (current_index self) 0) s2 (Some p2) Hne1 D2)
      as [_ [_ [_ [_ [_ [Hi2 [Hc2 [Hr2 _]]]]]]]].
    cbn [set_position sections current_index current_page] in Hi2, Hc2.
    assert (Hp2 : current_page s2 = 0).
    { rewrite Hc2. unfold clamp_page.
      destruct (Z.geb_spec 0 (len (pages s2))); [lia | reflexivity]. }
    exists s1, (Some p1), s2, (Some p2). unfold position, press.
    rewrite E3, Hi1, Hp1, Hi2, Hp2. auto.
Qed.

Lemma next_then_prev_section_witness :
  0 <= current_index on_first_section /\
  current_index on_first_section + 1 < len (sections on_first_section) /\
  position (fst (navigate PREV_SECTION (fst (navigate NEXT_SECTION on_first_section))))
  = (current_index on_first_section, 0) /\
  exists s1 o1 s2 o2,
    press console_80x13 NEXT_SECTION on_first_section = Ok (s1, o1) /\
    position s1 = (current_index on_first_section + 1, 0) /\
    press console_80x24 PREV_SECTION s1 = Ok (s2, o2) /\
    position s2 = (current_index on_first_section, 0).
Proof.
  assert (H0 : 0 <= current_index on_first_section) by (vm_compute; congruence).
  assert (H1 : current_index on_first_section + 1 < len (sections on_first_section))
    by reflexivity.
  destruct (next_then_prev_section console_80x13 console_80x24 on_first_section H0 H1)
    as [[_ [_ Hback]] Hloop].
  split; [exact H0 | split; [exact H1 | split; [exact Hback|]]].
  apply Hloop; simpl; lia.
Defined.

Lemma display_current_clamps_witness :
  sections (set_position on_first_section 0 7) <> [] /\
  exists self' page,
    display_current console_80x13 (set_position on_first_section 0 7)
    = Ok (self', Some page) /\
    current_page self' = len (pages self') - 1 /\
    getitem (pages self') (current_page self') = Ok page.
Proof.
  assert (Hne : sections (set_position on_first_section 0 7) <> []) by discriminate.
  split; [exact Hne|].
  destruct (display_current_clamps console_80x13 (set_position on_first_section 0 7) Hne)
    as [_ [_ H]]; [vm_compute; split; congruence|].
  destruct H as [self' [page [Hd [Hc [Hr [Hg _]]]]]]; [simpl; lia|].
  exists self', page. split; [exact Hd | split; [|exact Hg]].
  rewrite Hc. destruct (Z.geb_spec (current_page (set_position on_first_section 0 7))
                                   (len (pages self'))) as [_|Hlt]; [reflexivity|].
  exfalso. revert Hlt.
  change (display_current console_80x13 (set_position on_first_section 0 7))
    with (Ok (set_position on_first_section 0 2, Some (lit "c"))) in Hd.
  injection Hd as <- _. vm_compute. congruence.
Defined.

(* ================================================================== *)
(** * [_extract_title] *)

Section Title.

Lemma dropwhile_head (f : char -> bool) (s : str) (c : char) (rest : str) :
  dropwhile f s = c :: rest -> f c = false.
Proof.
  induction s as [|x s IH]; simpl; [discriminate|].
  destruct (f x) eqn:E; [assumption|].
  intros H. injection H as -> _. assumption.
Qed.

Lemma dropwhile_split (f : char -> bool) (s : str) :
  exists dropped, s = dropped ++ dropwhile f s /\ forallb f dropped = true.
Proof.
  induction s as [|x s [dropped [IH1 IH2]]]; simpl.
  - exists []. auto.
  - destruct (f x) eqn:E.
    + exists (x :: dropped). simpl. rewrite E, IH2. split; [congruence | reflexivity].
    + exists []. auto.
Qed.

(** [strip] removes whitespace only, and all of it at both ends. *)
Lemma strip_spec (s : str) :
  (exists left right,
      s = left ++ strip s ++ right /\
      forallb isspace left = true /\ forallb isspace right = true) /\
  trimmed (strip s).
Proof.
  unfold strip.
  destruct (dropwhile_split isspace s) as [l [Hl1 Hl2]].
  destruct (dropwhile_split isspace (rev (dropwhile isspace s))) as [r [Hr1 Hr2]].
  set (d := dropwhile isspace s) in *.
  set (e := dropwhile isspace (rev d)) in *.
  assert (Hd : d = rev e ++ rev r).
  { rewrite <- rev_app_distr, <- Hr1. now rewrite rev_involutive. }
  split.
  - exists l, (rev r). rewrite <- Hd. split; [assumption | split; [assumption|]].
    rewrite forallb_forall in *. intros x Hx. apply Hr2. now apply in_rev.
  - split.
    + intros c rest E. rewrite E in Hd. simpl in Hd.
      eapply dropwhile_head. exact Hd.
    + intros front c E. apply (f_equal (@rev char)) in E.
      rewrite rev_involutive, rev_app_distr in E. simpl in E.
      eapply dropwhile_head. exact E.
Qed.

(** The loop with an early [return] is [find]: the first line that
    qualifies wins. *)
Lemma find_first {A : Type} (f : A -> bool) (l : list A) :
  forall (i : nat) (x : A),
  nth_error l i = Some x -> f x = true ->
  (forall j y, (j < i)%nat -> nth_error l j = Some y -> f y = false) ->
  find f l = Some x.
Proof.
  induction l as [|a l IH]; intros [|i] x Hx Hf Hbefore; simpl in *; try discriminate.
  - injection Hx as ->. now rewrite Hf.
  - rewrite (Hbefore 0%nat a) by (reflexivity || lia).
    apply (IH i); [assumption | assumption |].
    intros j y Hj Hy. apply (Hbefore (S j)); [lia | assumption].
Qed.

Lemma find_nothing {A : Type} (f : A -> bool) (l : list A) :
  (forall x, In x l -> f x = false) -> find f l = None.
Proof.
  induction l as [|a l IH]; intros H; [reflexivity|].
  simpl. rewrite (H a) by now left. apply IH. intros x Hx. apply H. now right.
Qed.

Variable stem : str -> str.

Lemma extract_title_declared (item : Item.t) (content t : str) :
  Item.title item = Some t -> t <> [] -> _extract_title stem item content = t.
Proof.
  intros Ht Hne. unfold _extract_title. rewrite Ht.
  apply truthy_true in Hne. now rewrite Hne.
Qed.

Lemma extract_title_undeclared (item : Item.t) (content : str) :
  Item.title item = None \/ Item.title item = Some [] ->
  _extract_title stem item content =
    match find (fun line => startswith line (lit "#"))
               (firstn 5 (split (strip content) NEWLINE)) with
    | Some line => strip (lstrip line (lit "#"))
    | None => strip (replace (stem (Item.file_name item)) (lit "_") (lit " "))
    end.
Proof. intros [Ht | Ht]; unfold _extract_title; now rewrite Ht. Qed.

End Title.

(** C9, the claim as stated fails twice ([path_stem] is the stem of POSIX
    paths).  The heading is looked for in the first 5 lines, empty lines
    included: with a heading on the sixth line, which is the second
    non-empty line, the code falls back to the file name where the claim
    finds the heading.  And the fallback is stripped of surrounding
    whitespace after the underscores are replaced: a leading underscore
    leaves no leading space. *)
Lemma extract_title_not_spec :
  (_extract_title path_stem (Item.mk None (lit "f.html")) late_heading = lit "f" /\
   spec_resolve_title path_stem (Item.mk None (lit "f.html")) late_heading = lit "H") /\
  (_extract_title path_stem (Item.mk None (lit "_x.html")) (lit "hello") = lit "x" /\
   spec_resolve_title path_stem (Item.mk None (lit "_x.html")) (lit "hello") = lit " x").
Proof. repeat split; reflexivity. Qed.

(** C9, amended.  The title is, first match winning:
    (1) the declared title of the item when it is there and not empty;
    (2) otherwise the first line that starts with [#] among the first 5
        lines (empty lines count) of the content stripped of surrounding
        whitespace, with its leading [#] characters and then its
        surrounding whitespace removed;
    (3) otherwise the stem of the file name with underscores replaced by
        spaces and surrounding whitespace removed.
    Under (2) and (3) the title neither begins nor ends with whitespace.
    With no declared title and the content ["# Intro\nbody"] the title is
    ["Intro"], whatever the file name. *)
Theorem extract_title_priority (stem : str -> str) (item : Item.t) (content : str) :
  (forall t, Item.title item = Some t -> t <> [] ->
             _extract_title stem item content = t) /\
  (Item.title item = None \/ Item.title item = Some [] ->
   let lines := firstn 5 (split (strip content) NEWLINE) in
   (forall i line,
       nth_error lines i = Some line ->
       startswith line (lit "#") = true ->
       (forall j l, (j < i)%nat -> nth_error lines j = Some l ->
                    startswith l (lit "#") = false) ->
       _extract_title stem item content = strip (lstrip line (lit "#"))) /\
   ((forall line, In line lines -> startswith line (lit "#") = false) ->
    _extract_title stem item content
    = strip (replace (stem (Item.file_name item)) (lit "_") (lit " "))) /\
   trimmed (_extract_title stem item content)) /\
  (forall file_name,
      _extract_title stem (Item.mk None file_name)
        (lit "# Intro" ++ NEWLINE ++ lit "body") = lit "Intro").
Proof.
  split; [|split].
  - intros t. apply extract_title_declared.
  - intros Hnone lines. rewrite (extract_title_undeclared stem item content Hnone).
    fold lines. split; [|split].
    + intros i line Hi Hs Hbefore.
      now rewrite (find_first _ lines i line Hi Hs Hbefore).
    + intros Hnot. now rewrite find_nothing.
    + destruct (find _ lines); apply strip_spec.
  - intros file_name. reflexivity.
Qed.

Lemma extract_title_priority_witness :
  _extract_title path_stem (Item.mk (Some (lit "Ch1")) (lit "x.html")) (lit "hello")
  = lit "Ch1" /\
  _extract_title path_stem (Item.mk None (lit "x.html"))
    (lit "intro" ++ NEWLINE ++ lit "## Part  " ++ NEWLINE ++ lit "# Later")
  = lit "Part" /\
  _extract_title path_stem (Item.mk None (lit "part_two.html")) (lit "hello")
  = lit "part two".
Proof.
  split; [|split].
  - apply (proj1 (extract_title_priority path_stem
                    (Item.mk (Some (lit "Ch1")) (lit "x.html")) (lit "hello"))
             (lit "Ch1")); [reflexivity | discriminate].
  - destruct (proj1 (proj2 (extract_title_priority path_stem
                      (Item.mk None (lit "x.html"))
                      (lit "intro" ++ NEWLINE ++ lit "## Part  " ++ NEWLINE ++ lit "# Later")))
                (or_introl eq_refl)) as [Hheading _].
    apply (Hheading 1%nat (lit "## Part  ")); [reflexivity | reflexivity |].
    intros [|j] l Hj Hl; [|lia]. injection Hl as <-. reflexivity.
  - destruct (proj1 (proj2 (extract_title_priority path_stem
                      (Item.mk None (lit "part_two.html")) (lit "hello")))
                (or_introl eq_refl)) as [_ [Hfallback _]].
    apply Hfallback. intros line [<- | []]. reflexivity.
Defined.

(* ================================================================== *)
(** * Further properties of the pages *)

Section Pages.

Variable console : Console.

Lemma join_app (sep : str) (l1 l2 : list str) :
  l1 <> [] -> l2 <> [] ->
  join sep (l1 ++ l2) = join sep l1 ++ sep ++ join sep l2.
Proof.
  intros H1 H2. induction l1 as [|p l1 IH]; [congruence|].
  destruct l1 as [|q l1].
  - simpl app. now rewrite join_cons.
  - change ((p :: q :: l1) ++ l2) with (p :: ((q :: l1) ++ l2)).
    rewrite join_cons by discriminate. rewrite IH by discriminate.
    rewrite (join_cons sep p (q :: l1)) by discriminate.
    now rewrite <- !app_assoc.
Qed.

(** Joining pages that are themselves joined groups is joining all the
    paragraphs. *)
Lemma join_concat (sep : str) (groups : list (list str)) :
  Forall (fun g => g <> []) groups ->
  join sep (map (join sep) groups) = join sep (concat groups).
Proof.
  induction 1 as [|g groups Hg Hrest IH]; [reflexivity|].
  destruct groups as [|g' groups].
  - simpl. now rewrite app_nil_r.
  - change (map (join sep) (g :: g' :: groups))
      with (join sep g :: map (join sep) (g' :: groups)).
    rewrite join_cons by discriminate. rewrite IH.
    change (concat (g :: g' :: groups)) with (g ++ concat (g' :: groups)).
    rewrite join_app; [reflexivity | assumption |].
    inversion Hrest; subst. simpl. destruct g'; [congruence | discriminate].
Qed.

Lemma length_concat_nonempty {A : Type} (groups : list (list A)) :
  Forall (fun g => g <> []) groups ->
  (length groups <= length (concat groups))%nat.
Proof.
  induction 1 as [|g groups Hg _ IH]; [reflexivity|].
  simpl. rewrite length_app. destruct g; [congruence|]. simpl. lia.
Qed.

Lemma para_lines_estimate (para : str) :
  width console <> 10 -> para_lines console para = Ok (estimate console para).
Proof. apply para_lines_defined. Qed.

Lemma estimate_at_least_2 (para : str) :
  10 < width console -> 2 <= estimate console para.
Proof.
  intros Hw. unfold estimate.
  pose proof (count_nonneg para).
  assert (0 <= len para / (width console - 10))
    by (apply Z.div_pos; [apply len_nonneg | lia]).
  lia.
Qed.

Lemma total_estimate_app (l1 l2 : list str) :
  total_estimate console (l1 ++ l2)
  = total_estimate console l1 + total_estimate console l2.
Proof. induction l1 as [|p l1 IH]; simpl; [reflexivity | rewrite IH; lia]. Qed.

Lemma total_estimate_nonneg (l : list str) :
  10 < width console -> 0 <= total_estimate console l.
Proof.
  intros Hw. induction l as [|p l IH]; simpl; [lia|].
  pose proof (estimate_at_least_2 p Hw). lia.
Qed.

Lemma loop_body_budget (h : Z) (st st' : packing) (para : str)
      (done : list (list str)) :
  width console <> 10 ->
  loop_body console h st para = Ok st' ->
  l_pages st = map (join BLANK_LINE) done ->
  Forall (fits console h) done ->
  l_current_lines st = total_estimate console (l_current_page st) ->
  (l_current_page st = [] \/ fits console h (l_current_page st)) ->
  exists done',
    l_pages st' = map (join BLANK_LINE) done' /\
    Forall (fits console h) done' /\
    l_current_lines st' = total_estimate console (l_current_page st') /\
    (l_current_page st' = [] \/ fits console h (l_current_page st')) /\
    concat done' ++ l_current_page st'
    = (concat done ++ l_current_page st) ++ [para].
Proof.
  intros Hw H Hp Hdone Hlines Hcur.
  apply loop_body_cases in H as [n [Hn [H | [H | H]]]];
    rewrite para_lines_estimate in Hn by assumption; apply Ok_inj in Hn; subst n.
  - destruct H as [_ [Hcp ->]]. exists (done ++ [l_current_page st]). cbn [l_pages l_current_page l_current_lines].
    rewrite Hp, map_app, concat_app. simpl. rewrite app_nil_r.
    split; [reflexivity | split; [|split; [lia | split; [|reflexivity]]]].
    + apply Forall_app. split; [assumption|]. constructor; [|constructor].
      destruct Hcur; [congruence | assumption].
    + right. left. reflexivity.
  - destruct H as [_ [Hcp ->]]. exists (done ++ [[para]]). cbn [l_pages l_current_page l_current_lines].
    rewrite Hp, Hcp, map_app, concat_app. simpl. rewrite !app_nil_r.
    split; [reflexivity | split; [|split; [reflexivity | split; [|reflexivity]]]].
    + apply Forall_app. split; [assumption|]. constructor; [|constructor].
      left. reflexivity.
    + left. reflexivity.
  - destruct H as [Hle ->]. exists done. cbn [l_pages l_current_page l_current_lines].
    rewrite total_estimate_app. simpl total_estimate at 2.
    split; [assumption | split; [assumption | split; [lia | split]]].
    + right. right. split; [now destruct (l_current_page st)|].
      rewrite total_estimate_app. simpl. lia.
    + now rewrite app_assoc.
Qed.

Lemma for_paragraphs_budget (h : Z) (paragraphs : list str) :
  width console <> 10 ->
  forall (st st' : packing) (done : list (list str)),
  for_paragraphs console h paragraphs st = Ok st' ->
  l_pages st = map (join BLANK_LINE) done ->
  Forall (fits console h) done ->
  l_current_lines st = total_estimate console (l_current_page st) ->
  (l_current_page st = [] \/ fits console h (l_current_page st)) ->
  exists done',
    l_pages st' = map (join BLANK_LINE) done' /\
    Forall (fits console h) done' /\
    (l_current_page st' = [] \/ fits console h (l_current_page st')) /\
    concat done' ++ l_current_page st'
    = (concat done ++ l_current_page st) ++ paragraphs.
Proof.
  intros Hw. induction paragraphs as [|para rest IH];
    intros st st' done H Hp Hdone Hlines Hcur.
  - injection H as <-. exists done. rewrite app_nil_r. auto.
  - simpl in H. destruct (loop_body console h st para) as [st1|e] eqn:E;
      simpl in H; [|discriminate].
    destruct (loop_body_budget h st st1 para done Hw E Hp Hdone Hlines Hcur)
      as [d1 [Hp1 [Hd1 [Hl1 [Hc1 Hcat1]]]]].
    destruct (IH st1 st' d1 H Hp1 Hd1 Hl1 Hc1) as [d2 [Hp2 [Hd2 [Hc2 Hcat2]]]].
    exists d2. split; [assumption | split; [assumption | split; [assumption|]]].
    rewrite Hcat2, Hcat1, <- app_assoc. reflexivity.
Qed.

(** When every paragraph fits together, the loop only accumulates. *)
Lemma for_paragraphs_all_fit (h : Z) (paragraphs : list str) :
  10 < width console ->
  forall current,
  total_estimate console current + total_estimate console paragraphs <= h ->
  for_paragraphs console h paragraphs
    {| l_pages := []; l_current_page := current;
       l_current_lines := total_estimate console current |}
  = Ok {| l_pages := []; l_current_page := current ++ paragraphs;
          l_current_lines := total_estimate console (current ++ paragraphs) |}.
Proof.
  intros Hw. induction paragraphs as [|para rest IH]; intros current Hle.
  - simpl. now rewrite app_nil_r.
  - simpl for_paragraphs. unfold loop_body.
    rewrite para_lines_estimate by lia. cbn [bind l_current_lines l_current_page l_pages].
    simpl total_estimate in Hle.
    pose proof (total_estimate_nonneg rest Hw).
    destruct (Z.gtb_spec (total_estimate console current + estimate console para) h);
      [lia|].
    cbn [bind].
    replace (total_estimate console current + estimate console para)
      with (total_estimate console (current ++ [para]))
      by (rewrite total_estimate_app; simpl; lia).
    rewrite IH.
    + now rewrite <- app_assoc.
    + rewrite total_estimate_app. simpl. lia.
Qed.

End Pages.

(** X1. On a terminal that is not 10 columns wide the pages of a section,
    glued back with blank lines, are the text of the section: pagination
    loses and adds no character. *)
Theorem pages_join_to_content (console : Console) (content : str) :
  width console <> 10 ->
  exists pages,
    paginate console content = Ok pages /\
    join BLANK_LINE pages = content.
Proof.
  intros Hw. destruct (paginate_defined console content Hw) as [pages H].
  exists pages. split; [assumption|].
  apply paginate_groups in H as [groups [-> [Hne Hc]]].
  rewrite join_concat by assumption. rewrite Hc.
  apply join_split, BLANK_LINE_not_nil.
Qed.

Lemma pages_join_to_content_witness :
  width console_80x13 <> 10 /\
  exists pages,
    paginate console_80x13 tall_content = Ok pages /\
    join BLANK_LINE pages = tall_content.
Proof.
  split; [simpl; lia | apply (pages_join_to_content console_80x13 tall_content); simpl; lia].
Defined.

(** X2. There are never more pages than paragraphs (and there is at least
    one page). *)
Theorem pages_at_most_paragraphs (console : Console) (content : str) :
  width console <> 10 ->
  exists pages,
    paginate console content = Ok pages /\
    1 <= len pages <= len (split content BLANK_LINE).
Proof.
  intros Hw. destruct (paginate_defined console content Hw) as [pages H].
  exists pages. split; [assumption|].
  pose proof (paginate_not_nil console content pages H) as Hnil.
  apply truthy_true, truthy_len in Hnil.
  apply paginate_groups in H as [groups [-> [Hne Hc]]].
  split; [lia|]. rewrite <- Hc. unfold len in *. rewrite length_map.
  apply length_concat_nonempty in Hne. lia.
Qed.

Lemma pages_at_most_paragraphs_witness :
  width console_80x13 <> 10 /\
  exists pages,
    paginate console_80x13 tall_content = Ok pages /\
    1 <= len pages <= len (split tall_content BLANK_LINE).
Proof.
  split; [simpl; lia | apply (pages_at_most_paragraphs console_80x13 tall_content); simpl; lia].
Defined.

(** X3. Every page is made of consecutive paragraphs of the section, and
    it holds either one paragraph alone or paragraphs whose estimated
    lines add up to [console.height - 10] at most: only a single
    paragraph can make a page exceed the budget. *)
Theorem pages_within_budget (console : Console) (content : str) :
  width console <> 10 ->
  exists groups,
    paginate console content = Ok (map (join BLANK_LINE) groups) /\
    concat groups = split content BLANK_LINE /\
    Forall (fun g => length g = 1%nat \/
                     (g <> [] /\ total_estimate console g <= height console - 10))
           groups.
Proof.
  intros Hw. destruct (paginate_defined console content Hw) as [pages H].
  pose proof H as Hpages. unfold paginate in H.
  destruct (for_paragraphs console (height console - 10)
              (split content BLANK_LINE) packing0) as [st|e] eqn:E;
    cbn [bind] in H; [|discriminate].
  destruct (for_paragraphs_budget console (height console - 10) _ Hw
              packing0 st [] E eq_refl (Forall_nil _) eq_refl (or_introl eq_refl))
    as [done [Hp [Hfit [Hcur Hcat]]]].
  simpl in Hcat. apply Ok_inj in H. rewrite Hpages, <- H. clear H Hpages.
  destruct (l_current_page st) as [|q cp] eqn:Ecp; cbn [truthy].
  - rewrite app_nil_r in Hcat. exists done. rewrite Hp.
    destruct done as [|g done].
    + simpl in Hcat. symmetry in Hcat. now apply split_not_nil in Hcat.
    + cbn [map truthy]. auto.
  - rewrite truthy_snoc. exists (done ++ [q :: cp]).
    rewrite Hp, map_app. split; [reflexivity | split].
    + rewrite concat_app. simpl. now rewrite app_nil_r.
    + apply Forall_app. split; [assumption|]. constructor; [|constructor].
      destruct Hcur; [discriminate | assumption].
Qed.

Lemma pages_within_budget_witness :
  width console_80x13 <> 10 /\
  exists groups,
    paginate console_80x13 tall_content = Ok (map (join BLANK_LINE) groups) /\
    concat groups = split tall_content BLANK_LINE /\
    Forall (fun g => length g = 1%nat \/
                     (g <> [] /\ total_estimate console_80x13 g
                                 <= height console_80x13 - 10))
           groups.
Proof.
  split; [simpl; lia | apply (pages_within_budget console_80x13 tall_content); simpl; lia].
Defined.

(** X4. On a terminal wider than 10 columns, a section whose paragraphs
    are estimated together at [console.height - 10] lines at most is one
    page, and this page is the whole text of the section. *)
Theorem short_section_is_one_page (console : Console) (content : str) :
  10 < width console ->
  total_estimate console (split content BLANK_LINE) <= height console - 10 ->
  paginate console content = Ok [content].
Proof.
  intros Hw Hle. unfold paginate, packing0.
  change 0 with (total_estimate console []) at 1.
  rewrite for_paragraphs_all_fit by (simpl; assumption || lia).
  cbn [bind l_current_page l_pages app].
  pose proof (split_not_nil content BLANK_LINE) as Hne.
  apply truthy_true in Hne. rewrite Hne. cbn [truthy].
  now rewrite join_split by apply BLANK_LINE_not_nil.
Qed.

Lemma short_section_is_one_page_witness :
  10 < width console_80x24 /\
  total_estimate console_80x24 (split tall_content BLANK_LINE)
  <= height console_80x24 - 10 /\
  paginate console_80x24 tall_content = Ok [tall_content].
Proof.
  assert (Hw : 10 < width console_80x24) by (simpl; lia).
  assert (Hle : total_estimate console_80x24 (split tall_content BLANK_LINE)
                <= height console_80x24 - 10) by (vm_compute; congruence).
  split; [exact Hw | split; [exact Hle|]].
  apply (short_section_is_one_page console_80x24 tall_content Hw Hle).
Defined.

(* ================================================================== *)
(** * Moving through a displayed book *)

Section Moves.

Variable console : Console.

Lemma getitem_nth {A : Type} (l : list A) (i : Z) (x : A) :
  0 <= i -> getitem l i = Ok x -> nth_error l (Z.to_nat i) = Some x.
Proof.
  intros Hi H. pose proof (getitem_Ok l i x H) as Hr.
  destruct (getitem_in_range l i ltac:(lia)) as [y [Hy Hn]]. congruence.
Qed.

Lemma clamp_page_id (page : Z) (pages : list str) :
  0 <= page < len pages -> clamp_page page pages = page.
Proof.
  intros H. unfold clamp_page.
  destruct (Z.geb_spec page (len pages)); [lia|].
  destruct (Z.ltb_spec page 0); [lia | reflexivity].
Qed.

Lemma clamp_page_last (n : Z) (pages : list str) :
  1 <= n -> pages <> [] ->
  clamp_page (n - 1) pages = Z.min n (len pages) - 1.
Proof.
  intros Hn Hne. apply truthy_true, truthy_len in Hne. unfold clamp_page.
  destruct (Z.geb_spec (n - 1) (len pages)); [lia|].
  destruct (Z.ltb_spec (n - 1) 0); lia.
Qed.

Lemma paginate_Ok_width (content : str) (pages : list str) :
  paginate console content = Ok pages -> width console <> 10.
Proof. intros H Hw. rewrite paginate_raises in H by assumption. discriminate. Qed.

(** The display of a reader whose section and its pages are known. *)
Lemma display_current_at (self : Reader) (section : Sec.t) (pages' : list str) :
  sections self <> [] ->
  getitem (sections self) (current_index self) = Ok section ->
  paginate console (Sec.content section) = Ok pages' ->
  exists page,
    display_current console self
    = Ok ({| sections := sections self;
             current_index := current_index self;
             current_page := clamp_page (current_page self) pages';
             pages := pages' |}, Some page) /\
    getitem pages' (clamp_page (current_page self) pages') = Ok page.
Proof.
  intros Hne Hs Hp. unfold display_current.
  pose proof Hne as Ht. apply truthy_true in Ht. rewrite Ht. cbn [negb].
  rewrite Hs. cbn [bind]. rewrite Hp. cbn [bind].
  pose proof (paginate_not_nil console _ _ Hp) as Hpn.
  destruct (getitem_in_range pages' _
              (clamp_page_in_range (current_page self) pages' Hpn)) as [page [Hg _]].
  rewrite Hg. cbn [bind]. unfold truediv_defined.
  apply truthy_true, truthy_len in Hne. apply truthy_true, truthy_len in Hpn.
  destruct (Z.eqb_spec (len (sections self)) 0); [lia|].
  destruct (Z.eqb_spec (len pages') 0); [lia|].
  cbn [bind]. eauto.
Qed.

(** What a reader on display holds. *)
Lemma on_display_facts (self : Reader) :
  sections self <> [] ->
  on_display console self ->
  exists section,
    getitem (sections self) (current_index self) = Ok section /\
    paginate console (Sec.content section) = Ok (pages self) /\
    0 <= current_page self < len (pages self) /\
    width console <> 10.
Proof.
  intros Hne [page H].
  destruct (display_current_Ok console self self (Some page) Hne H)
    as [section [page' [Hs [Hp [_ [_ [_ [Hr _]]]]]]]].
  exists section. repeat split; try assumption; try lia.
  eapply paginate_Ok_width; eassumption.
Qed.

(** What a display returns is a reader on display: displaying again
    changes nothing. *)
Lemma display_current_again (self self' : Reader) (out : option str) :
  display_current console self = Ok (self', out) ->
  display_current console self' = Ok (self', out).
Proof.
  intros H. destruct (sections self) as [|s0 rest] eqn:Esec.
  - unfold display_current in H. rewrite Esec in H. cbn [truthy negb] in H.
    injection H as <- <-. unfold display_current. now rewrite Esec.
  - assert (Hne : sections self <> []) by (rewrite Esec; discriminate).
    destruct (display_current_Ok console self self' out Hne H)
      as [section [page [Hs [Hp [Hs' [Hi [_ [Hr [Hg Ho]]]]]]]]].
    destruct (display_current_at self' section (pages self'))
      as [page' [Hd Hg']]; [congruence | congruence | assumption |].
    rewrite clamp_page_id in Hd, Hg' by assumption.
    rewrite Hd. destruct self'. cbn in *. congruence.
Qed.

Lemma display_current_on_display (self self' : Reader) (page : str) :
  display_current console self = Ok (self', Some page) -> on_display console self'.
Proof. intros H. exists page. eapply display_current_again; eassumption. Qed.

(** A valid position on the section shown is a page of [self.pages]. *)
Lemma valid_position_same_section (self : Reader) (section : Sec.t) (q : Z * Z) :
  0 <= current_index self ->
  getitem (sections self) (current_index self) = Ok section ->
  paginate console (Sec.content section) = Ok (pages self) ->
  valid_position console (sections self) q ->
  fst q = current_index self ->
  0 <= snd q < len (pages self).
Proof.
  intros Hi Hs Hp [section' [_ [Hn Hq]]] Hfst.
  rewrite Hfst in Hn. rewrite (getitem_nth _ _ _ Hi Hs) in Hn.
  injection Hn as <-. unfold page_count in Hq. now rewrite Hp in Hq.
Qed.

Lemma valid_position_index (book : list Sec.t) (q : Z * Z) :
  valid_position console book q -> 0 <= fst q < len book.
Proof.
  intros [section [H0 [Hn _]]]. split; [assumption|].
  assert (Hlt : (Z.to_nat (fst q) < length book)%nat)
    by (apply nth_error_Some; congruence).
  unfold len. lia.
Qed.

(** A move to a section: the display paginates it and clamps the page. *)
Lemma display_current_moved (self : Reader) (index page : Z) :
  sections self <> [] ->
  0 <= index < len (sections self) ->
  width console <> 10 ->
  exists section pages' text,
    getitem (sections self) index = Ok section /\
    paginate console (Sec.content section) = Ok pages' /\
    pages' <> [] /\
    display_current console (set_position self index page)
    = Ok ({| sections := sections self; current_index := index;
             current_page := clamp_page page pages'; pages := pages' |},
          Some text).
Proof.
  intros Hne Hi Hw.
  destruct (getitem_in_range (sections self) index Hi) as [section [Hs _]].
  destruct (paginate_complete console (Sec.content section) Hw) as [pages' [Hp [Hpn _]]].
  destruct (display_current_at (set_position self index page) section pages')
    as [text [Hd _]]; try assumption.
  exists section, pages', text. auto.
Qed.

End Moves.

(** X5. Displaying twice in a row on the same terminal is displaying once:
    the second display returns the same page and leaves the reader as the
    first one left it (the pages are recomputed to the same list and the
    clamp has nothing to correct). *)
Theorem display_current_idempotent (console : Console) (self self' : Reader)
        (out : option str) :
  display_current console self = Ok (self', out) ->
  display_current console self' = Ok (self', out).
Proof. apply display_current_again. Qed.

Lemma display_current_idempotent_witness :
  display_current console_80x13 (set_position on_first_section 0 7)
  = Ok (set_position on_first_section 0 2, Some (lit "c")) /\
  display_current console_80x13 (set_position on_first_section 0 2)
  = Ok (set_position on_first_section 0 2, Some (lit "c")).
Proof.
  assert (H : display_current console_80x13 (set_position on_first_section 0 7)
              = Ok (set_position on_first_section 0 2, Some (lit "c")))
    by reflexivity.
  split; [exact H|].
  exact (display_current_idempotent console_80x13 _ _ _ H).
Defined.

(** X6. On a displayed book, [nextPage] followed by the display leads to
    the next position in document order: the new position is a page of
    the book, it comes after the old one, and no page of the book lies
    between the two.  The key does nothing only on the last page of the
    last section, after which no page of the book comes. *)
Theorem next_page_is_successor (console : Console) (self : Reader) :
  sections self <> [] ->
  0 <= current_index self ->
  on_display console self ->
  exists self' page,
    press console NEXT_PAGE self = Ok (self', Some page) /\
    on_display console self' /\
    sections self' = sections self /\
    ((snd (navigate NEXT_PAGE self) = false /\
      self' = self /\
      forall q, valid_position console (sections self) q ->
                ~ before (position self) q)
     \/ (snd (navigate NEXT_PAGE self) = true /\
         valid_position console (sections self) (position self') /\
         before (position self) (position self') /\
         forall q, valid_position console (sections self) q ->
                   ~ (before (position self) q /\ before q (position self')))).
Proof.
  intros Hne Hci Hon.
  destruct (on_display_facts console self Hne Hon) as [section [Hs [Hp [Hcp Hw]]]].
  pose proof (getitem_Ok _ _ _ Hs) as Hcir.
  unfold press. rewrite navigate_next_page.
  destruct (in_range (current_page self + 1) (len (pages self))) eqn:E1.
  - (* the next page of the section *)
    apply in_range_spec in E1. cbn [fst snd].
    destruct (display_current_at console
                (set_position self (current_index self) (current_page self + 1))
                section (pages self) Hne Hs Hp) as [text [Hd _]].
    cbn [set_position sections current_index current_page] in Hd.
    rewrite clamp_page_id in Hd by assumption.
    eexists. exists text. split; [exact Hd|].
    split; [eapply display_current_on_display; exact Hd|].
    split; [reflexivity|]. right. split; [reflexivity|].
    unfold position, before. cbn [current_index current_page fst snd].
    split; [|split; [lia|]].
    + exists section. cbn [fst snd]. split; [lia|].
      split; [now apply getitem_nth|]. unfold page_count. rewrite Hp. lia.
    + intros q _. lia.
  - apply in_range_false in E1.
    destruct (in_range (current_index self + 1) (len (sections self))) eqn:E2.
    + (* the first page of the next section *)
      apply in_range_spec in E2. cbn [fst snd].
      destruct (display_current_moved console self (current_index self + 1) 0 Hne E2 Hw)
        as [section2 [pages2 [text [Hs2 [Hp2 [Hpn2 Hd]]]]]].
      pose proof Hpn2 as Hlen2. apply truthy_true, truthy_len in Hlen2.
      rewrite clamp_page_id in Hd by lia.
      eexists. exists text. split; [exact Hd|].
      split; [eapply display_current_on_display; exact Hd|].
      split; [reflexivity|]. right. split; [reflexivity|].
      unfold position. cbn [current_index current_page].
      split; [|split; [left; cbn [fst]; lia|]].
      * exists section2. cbn [fst snd]. split; [lia|].
        split; [apply getitem_nth; [lia | assumption]|].
        unfold page_count. rewrite Hp2. lia.
      * intros q Hq [Hb1 Hb2]. unfold before in Hb1, Hb2. cbn [fst snd] in Hb1, Hb2.
        pose proof (valid_position_index console _ q Hq) as Hqi.
        destruct Hq as [sq [Hq0 [Hqn Hqp]]].
        destruct Hb1 as [Hb1 | [Hb1 Hb1']]; [lia|].
        assert (Hv : valid_position console (sections self) q)
          by (exists sq; auto).
        pose proof (valid_position_same_section console self section q
                      Hci Hs Hp Hv (eq_sym Hb1)). lia.
    + (* the last page of the last section *)
      apply in_range_false in E2. cbn [fst snd].
      destruct Hon as [text Hd]. exists self, text.
      split; [exact Hd|]. split; [now exists text|].
      split; [reflexivity|]. left. split; [reflexivity | split; [reflexivity|]].
      intros q Hq Hb. unfold before, position in Hb. cbn [fst snd] in Hb.
      pose proof (valid_position_index console _ q Hq) as Hqi.
      destruct Hb as [Hb | [Hb Hb']]; [lia|].
      pose proof (valid_position_same_section console self section q
                    Hci Hs Hp Hq (eq_sym Hb)). lia.
Qed.

Lemma next_page_is_successor_witness :
  sections on_first_section <> [] /\
  0 <= current_index on_first_section /\
  on_display console_80x13 on_first_section /\
  exists self' page,
    press console_80x13 NEXT_PAGE on_first_section = Ok (self', Some page) /\
    on_display console_80x13 self'.
Proof.
  assert (Hne : sections on_first_section <> []) by discriminate.
  assert (Hci : 0 <= current_index on_first_section) by (vm_compute; congruence).
  assert (Hon : on_display console_80x13 on_first_section)
    by (exists (lit "a"); reflexivity).
  split; [exact Hne | split; [exact Hci | split; [exact Hon|]]].
  destruct (next_page_is_successor console_80x13 on_first_section Hne Hci Hon)
    as [self' [page [H1 [H2 _]]]].
  exists self', page. split; [exact H1 | exact H2].
Defined.

(** X7. Within a section [nextPage] and [prevPage] undo each other: from
    a displayed page that is not the last of its section, [nextPage] then
    [prevPage] (each followed by the display) leads back to the very same
    state; and likewise [prevPage] then [nextPage] from a page that is not
    the first. *)
Theorem page_keys_undo_each_other (console : Console) (self : Reader) :
  sections self <> [] ->
  on_display console self ->
  (current_page self + 1 < len (pages self) ->
   exists s1 p1 p,
     press console NEXT_PAGE self = Ok (s1, Some p1) /\
     position s1 = (current_index self, current_page self + 1) /\
     press console PREV_PAGE s1 = Ok (self, Some p)) /\
  (0 < current_page self ->
   exists s1 p1 p,
     press console PREV_PAGE self = Ok (s1, Some p1) /\
     position s1 = (current_index self, current_page self - 1) /\
     press console NEXT_PAGE s1 = Ok (self, Some p)).
Proof.
  intros Hne Hon.
  destruct (on_display_facts console self Hne Hon) as [section [Hs [Hp [Hcp Hw]]]].
  destruct Hon as [text Hself].
  assert (Hback : forall page,
             0 <= page < len (pages self) ->
             exists p1,
               display_current console (set_position self (current_index self) page)
               = Ok (set_position self (current_index self) page, Some p1)).
  { intros page Hpage.
    destruct (display_current_at console
                (set_position self (current_index self) page)
                section (pages self) Hne Hs Hp) as [p1 [Hd _]].
    cbn [set_position sections current_index current_page] in Hd.
    rewrite clamp_page_id in Hd by assumption. exists p1. exact Hd. }
  assert (Hself' : set_position self (current_index self) (current_page self) = self)
    by (destruct self; reflexivity).
  split.
  - intros Hnext.
    destruct (Hback (current_page self + 1) ltac:(lia)) as [p1 Hd1].
    exists (set_position self (current_index self) (current_page self + 1)), p1, text.
    unfold press. rewrite navigate_next_page.
    replace (in_range (current_page self + 1) (len (pages self))) with true
      by (symmetry; apply in_range_spec; lia).
    cbn [fst]. split; [exact Hd1 | split; [reflexivity|]].
    rewrite navigate_prev_page. cbn [set_position pages current_page current_index sections].
    replace (current_page self + 1 - 1) with (current_page self) by lia.
    replace (in_range (current_page self) (len (pages self))) with true
      by (symmetry; apply in_range_spec; lia).
    cbn [fst]. unfold set_position in *. cbn [sections pages] in *.
    rewrite Hself'. exact Hself.
  - intros Hprev.
    destruct (Hback (current_page self - 1) ltac:(lia)) as [p1 Hd1].
    exists (set_position self (current_index self) (current_page self - 1)), p1, text.
    unfold press. rewrite navigate_prev_page.
    replace (in_range (current_page self - 1) (len (pages self))) with true
      by (symmetry; apply in_range_spec; lia).
    cbn [fst]. split; [exact Hd1 | split; [reflexivity|]].
    rewrite navigate_next_page. cbn [set_position pages current_page current_index sections].
    replace (current_page self - 1 + 1) with (current_page self) by lia.
    replace (in_range (current_page self) (len (pages self))) with true
      by (symmetry; apply in_range_spec; lia).
    cbn [fst]. unfold set_position in *. cbn [sections pages] in *.
    rewrite Hself'. exact Hself.
Qed.

Lemma page_keys_undo_each_other_witness :
  sections on_first_section <> [] /\
  on_display console_80x13 on_first_section /\
  current_page on_first_section + 1 < len (pages on_first_section) /\
  exists s1 p1 p,
    press console_80x13 NEXT_PAGE on_first_section = Ok (s1, Some p1) /\
    position s1 = (current_index on_first_section, current_page on_first_section + 1) /\
    press console_80x13 PREV_PAGE s1 = Ok (on_first_section, Some p).
Proof.
  assert (Hne : sections on_first_section <> []) by discriminate.
  assert (Hon : on_display console_80x13 on_first_section)
    by (exists (lit "a"); reflexivity).
  assert (Hlt : current_page on_first_section + 1 < len (pages on_first_section))
    by reflexivity.
  split; [exact Hne | split; [exact Hon | split; [exact Hlt|]]].
  exact (proj1 (page_keys_undo_each_other console_80x13 on_first_section Hne Hon) Hlt).
Defined.

(** X8. From every section but the first, [prevSection] then
    [nextSection] both move and lead back to the section they started
    from, on page 0, with the displays in between. *)
Theorem prev_then_next_section (console1 console2 : Console) (self : Reader) :
  1 <= current_index self < len (sections self) ->
  width console1 <> 10 -> width console2 <> 10 ->
  snd (navigate PREV_SECTION self) = true /\
  exists s1 p1 s2 p2,
    press console1 PREV_SECTION self = Ok (s1, Some p1) /\
    position s1 = (current_index self - 1, 0) /\
    snd (navigate NEXT_SECTION s1) = true /\
    press console2 NEXT_SECTION s1 = Ok (s2, Some p2) /\
    position s2 = (current_index self, 0).
Proof.
  intros Hci Hw1 Hw2.
  assert (Hne : sections self <> []) by (apply truthy_true, truthy_len; lia).
  assert (E1 : navigate PREV_SECTION self
               = (set_position self (current_index self - 1) 0, true)).
  { rewrite navigate_section by auto.
    replace (in_range _ _) with true; [reflexivity|].
    symmetry. apply in_range_spec. unfold PREV_SECTION. lia. }
  rewrite E1. split; [reflexivity|].
  destruct (display_current_moved console1 self (current_index self - 1) 0
              Hne ltac:(lia) Hw1)
    as [sec1 [pages1 [p1 [_ [_ [Hpn1 Hd1]]]]]].
  rewrite clamp_page_id in Hd1 by (apply truthy_true, truthy_len in Hpn1; lia).
  set (s1 := {| sections := sections self; current_index := current_index self - 1;
                current_page := 0; pages := pages1 |}) in *.
  assert (E2 : navigate NEXT_SECTION s1
               = (set_position s1 (current_index self) 0, true)).
  { rewrite navigate_section by auto. subst s1. cbn [current_index sections].
    replace (in_range _ _) with true.
    - unfold NEXT_SECTION. do 2 f_equal. lia.
    - symmetry. apply in_range_spec. unfold NEXT_SECTION. lia. }
  destruct (display_current_moved console2 s1 (current_index self) 0
              Hne ltac:(subst s1; cbn [sections]; lia) Hw2)
    as [sec2 [pages2 [p2 [_ [_ [Hpn2 Hd2]]]]]].
  rewrite clamp_page_id in Hd2 by (apply truthy_true, truthy_len in Hpn2; lia).
  exists s1, p1. eexists. exists p2. unfold press. rewrite E1, E2. cbn [fst snd].
  split; [exact Hd1 | split; [reflexivity | split; [reflexivity | split; [exact Hd2|]]]].
  reflexivity.
Qed.

Lemma prev_then_next_section_witness :
  1 <= current_index on_second_section < len (sections on_second_section) /\
  width console_80x13 <> 10 /\ width console_80x24 <> 10 /\
  exists s1 p1 s2 p2,
    press console_80x13 PREV_SECTION on_second_section = Ok (s1, Some p1) /\
    position s1 = (current_index on_second_section - 1, 0) /\
    snd (navigate NEXT_SECTION s1) = true /\
    press console_80x24 NEXT_SECTION s1 = Ok (s2, Some p2) /\
    position s2 = (current_index on_second_section, 0).
Proof.
  assert (Hci : 1 <= current_index on_second_section < len (sections on_second_section))
    by (vm_compute; split; congruence).
  assert (Hw1 : width console_80x13 <> 10) by (simpl; lia).
  assert (Hw2 : width console_80x24 <> 10) by (simpl; lia).
  split; [exact Hci | split; [exact Hw1 | split; [exact Hw2|]]].
  exact (proj2 (prev_then_next_section console_80x13 console_80x24
                  on_second_section Hci Hw1 Hw2)).
Defined.

(** X9. [jumpEnd] on a displayed book leads to the last section, on the
    page [min(n, m) - 1] where [n] is the number of pages of the section
    that was shown and [m] that of the last section.  Pressed a second
    time it leads to the last page of the last section, and further
    presses stay there. *)
Theorem jump_end_twice (console : Console) (self : Reader) :
  sections self <> [] ->
  on_display console self ->
  exists s1 p1 s2 p2,
    press console JUMP_END self = Ok (s1, Some p1) /\
    position s1 = (len (sections self) - 1,
                   Z.min (len (pages self)) (len (pages s1)) - 1) /\
    press console JUMP_END s1 = Ok (s2, Some p2) /\
    position s2 = (len (sections self) - 1, len (pages s2) - 1) /\
    press console JUMP_END s2 = Ok (s2, Some p2).
Proof.
  intros Hne Hon.
  destruct (on_display_facts console self Hne Hon) as [section [Hs [Hp [Hcp Hw]]]].
  pose proof Hne as Hlen. apply truthy_true, truthy_len in Hlen.
  unfold press. rewrite navigate_jump_end. cbn [fst].
  destruct (display_current_moved console self (len (sections self) - 1)
              (len (pages self) - 1) Hne ltac:(lia) Hw)
    as [last [pages1 [p1 [Hs1 [Hp1 [Hpn1 Hd1]]]]]].
  rewrite clamp_page_last in Hd1 by (assumption || lia).
  set (s1 := {| sections := sections self;
                current_index := len (sections self) - 1;
                current_page := Z.min (len (pages self)) (len pages1) - 1;
                pages := pages1 |}) in *.
  pose proof Hpn1 as Hlen1. apply truthy_true, truthy_len in Hlen1.
  assert (Hat : forall page,
             exists p2,
               display_current console
                 (set_position s1 (len (sections self) - 1) page)
               = Ok ({| sections := sections self;
                        current_index := len (sections self) - 1;
                        current_page := clamp_page page pages1;
                        pages := pages1 |}, Some p2)).
  { intros page.
    destruct (display_current_at console
                (set_position s1 (len (sections self) - 1) page) last pages1)
      as [p2 [Hd _]]; try assumption.
    exists p2. exact Hd. }
  destruct (Hat (len pages1 - 1)) as [p2 Hd2].
  rewrite clamp_page_id in Hd2 by lia.
  exists s1, p1. eexists. exists p2.
  split; [exact Hd1 | split; [reflexivity|]].
  rewrite navigate_jump_end. cbn [fst].
  subst s1. cbn [sections pages].
  split; [exact Hd2 | split; [reflexivity|]].
  rewrite navigate_jump_end. cbn [fst sections pages set_position] in *.
  exact Hd2.
Qed.

Lemma jump_end_twice_witness :
  sections on_second_section <> [] /\
  on_display console_80x13 on_second_section /\
  exists s1 p1 s2 p2,
    press console_80x13 JUMP_END on_second_section = Ok (s1, Some p1) /\
    position s1 = (len (sections on_second_section) - 1,
                   Z.min (len (pages on_second_section)) (len (pages s1)) - 1) /\
    press console_80x13 JUMP_END s1 = Ok (s2, Some p2) /\
    position s2 = (len (sections on_second_section) - 1, len (pages s2) - 1) /\
    press console_80x13 JUMP_END s2 = Ok (s2, Some p2).
Proof.
  assert (Hne : sections on_second_section <> []) by discriminate.
  assert (Hon : on_display console_80x13 on_second_section)
    by (exists (lit "d"); reflexivity).
  split; [exact Hne | split; [exact Hon|]].
  exact (jump_end_twice console_80x13 on_second_section Hne Hon).
Defined.

(** X10. [prevPage] on the first page of a displayed section other than
    the first leads to the section before, on the page [min(n, m) - 1]
    where [n] is the number of pages of the section that was shown and [m]
    that of the section before: this is the last page of that section
    exactly when it has no more pages than the section left. *)
Theorem prev_page_across_sections (console : Console) (self : Reader) :
  1 <= current_index self ->
  current_page self = 0 ->
  on_display console self ->
  exists s1 p1,
    press console PREV_PAGE self = Ok (s1, Some p1) /\
    position s1 = (current_index self - 1,
                   Z.min (len (pages self)) (len (pages s1)) - 1) /\
    (current_page s1 = len (pages s1) - 1 <-> len (pages s1) <= len (pages self)).
Proof.
  intros Hci Hcp0 Hon.
  assert (Hne : sections self <> []).
  { intros E. destruct Hon as [p H]. unfold display_current in H.
    rewrite E in H. discriminate. }
  destruct (on_display_facts console self Hne Hon) as [section [Hs [Hp [Hcp Hw]]]].
  pose proof (getitem_Ok _ _ _ Hs) as Hcir.
  unfold press. rewrite navigate_prev_page.
  replace (in_range (current_page self - 1) (len (pages self))) with false
    by (symmetry; apply in_range_false; lia).
  replace (in_range (current_index self - 1) (len (sections self))) with true
    by (symmetry; apply in_range_spec; lia).
  cbn [fst].
  destruct (display_current_moved console self (current_index self - 1)
              (len (pages self) - 1) Hne ltac:(lia) Hw)
    as [before_ [pages1 [p1 [_ [_ [Hpn1 Hd1]]]]]].
  rewrite clamp_page_last in Hd1 by (assumption || lia).
  eexists. exists p1. split; [exact Hd1|].
  unfold position. cbn [current_index current_page pages].
  split; [reflexivity|]. lia.
Qed.

Lemma prev_page_across_sections_witness :
  1 <= current_index on_second_section /\
  current_page on_second_section = 0 /\
  on_display console_80x13 on_second_section /\
  exists s1 p1,
    press console_80x13 PREV_PAGE on_second_section = Ok (s1, Some p1) /\
    position s1 = (current_index on_second_section - 1,
                   Z.min (len (pages on_second_section)) (len (pages s1)) - 1) /\
    (current_page s1 = len (pages s1) - 1
     <-> len (pages s1) <= len (pages on_second_section)).
Proof.
  assert (Hci : 1 <= current_index on_second_section) by (vm_compute; congruence).
  assert (Hcp : current_page on_second_section = 0) by reflexivity.
  assert (Hon : on_display console_80x13 on_second_section)
    by (exists (lit "d"); reflexivity).
  split; [exact Hci | split; [exact Hcp | split; [exact Hon|]]].
  exact (prev_page_across_sections console_80x13 on_second_section Hci Hcp Hon).
Defined.

(* ================================================================== *)
(** * [_process_sections] *)

Section Extraction.

Variable html_to_text : list Byte.byte -> option str.
Variable stem : str -> str.

(** Whether an item gives a section, and which content and title it
    gets, does not depend on the sections before it; only the parent
    does. *)
Lemma process_item_prev (prev : option extracted) (it : BookItem) :
  process_item html_to_text stem prev it =
    match process_item html_to_text stem None it with
    | Some s => Some {| x_content := x_content s; x_title := x_title s;
                        x_parent := option_map x_title prev |}
    | None => None
    end.
Proof.
  unfold process_item.
  destruct (match get_content it with
            | RawNone => _ | RawBytes b => _ end) as [content|]; [|reflexivity].
  destruct (extract_title_of stem (attributes it) content); reflexivity.
Qed.

Lemma process_item_parent (prev : option extracted) (it : BookItem) (s : extracted) :
  process_item html_to_text stem prev it = Some s -> x_parent s = option_map x_title prev.
Proof.
  rewrite process_item_prev. destruct (process_item html_to_text stem None it); [|discriminate].
  intros H. injection H as <-. reflexivity.
Qed.

(** The three ways an item gives no section. *)
Lemma process_item_None (prev : option extracted) (it : BookItem) :
  process_item html_to_text stem prev it = None <->
  (exists b, get_content it = RawBytes b /\ b <> [] /\ html_to_text b = None)
  \/ (truthy_raw (get_content it) = false /\
      (Item.title (attributes it) = None \/ Item.title (attributes it) = Some [])).
Proof.
  unfold process_item, truthy_raw.
  destruct (get_content it) as [|b]; [|destruct b as [|x b]]; cbn [truthy extract_title_of].
  - destruct (Item.title (attributes it)) as [[|c t]|]; cbn [truthy]; split;
      try discriminate; try tauto;
      intros [[b [H _]] | [_ [H | H]]]; discriminate.
  - destruct (Item.title (attributes it)) as [[|c t]|]; cbn [truthy]; split;
      try discriminate; try tauto;
      intros [[b [H [Hb _]]] | [_ [H | H]]]; try discriminate;
      injection H as <-; congruence.
  - destruct (html_to_text (x :: b)) as [text|] eqn:E; cbn [option_map extract_title_of]; split.
    + discriminate.
    + intros [[b' [H [_ Hn]]] | [H _]]; [|discriminate].
      injection H as <-. congruence.
    + intros _. left. exists (x :: b). repeat split; [discriminate | assumption].
    + reflexivity.
Qed.

Lemma process_loop_acc (items : list BookItem) :
  forall sections prev,
  process_loop html_to_text stem items sections prev = sections ++ process_loop html_to_text stem items [] prev.
Proof.
  induction items as [|it rest IH]; intros sections prev; simpl.
  - now rewrite app_nil_r.
  - destruct (is_document it); cbn [negb]; [|apply IH].
    destruct (process_item html_to_text stem prev it) as [section|]; [|apply IH].
    rewrite IH. rewrite (IH ([] ++ [section])). now rewrite <- app_assoc.
Qed.

Lemma process_loop_chained (items : list BookItem) :
  forall prev, chained (option_map x_title prev) (process_loop html_to_text stem items [] prev).
Proof.
  induction items as [|it rest IH]; intros prev; simpl; [constructor|].
  destruct (is_document it); cbn [negb]; [|apply IH].
  destruct (process_item html_to_text stem prev it) as [section|] eqn:E; [|apply IH].
  rewrite process_loop_acc. simpl. constructor.
  - eapply process_item_parent; eassumption.
  - apply (IH (Some section)).
Qed.

Lemma chained_nth (parent : option str) (l : list extracted) :
  chained parent l ->
  (forall s, nth_error l 0 = Some s -> x_parent s = parent) /\
  (forall i s, nth_error l (S i) = Some s ->
               exists p, nth_error l i = Some p /\ x_parent s = Some (x_title p)).
Proof.
  induction 1 as [parent | parent section rest Hp Hrest [IH0 IHS]].
  - split; [intros s H | intros i s H]; discriminate.
  - split.
    + intros s H. injection H as <-. assumption.
    + intros [|i] s H; simpl in H.
      * exists section. split; [reflexivity | now apply IH0].
      * destruct (IHS i s H) as [p [Hn Hx]]. exists p. auto.
Qed.

Lemma process_loop_skip (l1 l2 : list BookItem) (it : BookItem) :
  is_document it = false \/ process_item html_to_text stem None it = None ->
  forall sections prev,
  process_loop html_to_text stem (l1 ++ it :: l2) sections prev = process_loop html_to_text stem (l1 ++ l2) sections prev.
Proof.
  intros Hbad. induction l1 as [|x l1 IH]; intros sections prev; simpl.
  - destruct Hbad as [-> | Hnone]; [reflexivity|].
    destruct (is_document it); cbn [negb]; [|reflexivity].
    rewrite process_item_prev, Hnone. reflexivity.
  - destruct (is_document x); cbn [negb]; [|apply IH].
    destruct (process_item html_to_text stem prev x); apply IH.
Qed.

Lemma process_loop_core (items : list BookItem) :
  forall prev,
  map (fun s => (x_content s, x_title s)) (process_loop html_to_text stem items [] prev)
  = flat_map (fun it =>
                if is_document it
                then match process_item html_to_text stem None it with
                     | Some s => [(x_content s, x_title s)]
                     | None => []
                     end
                else [])
             items.
Proof.
  induction items as [|it rest IH]; intros prev; simpl; [reflexivity|].
  destruct (is_document it); cbn [negb]; [|apply IH].
  rewrite process_item_prev.
  destruct (process_item html_to_text stem None it) as [s|]; [|apply IH].
  rewrite process_loop_acc. simpl. now rewrite IH.
Qed.

End Extraction.

(** X11. In the sections [_process_sections] returns, the first section
    has no parent and the parent of every other section is the title of
    the section just before it in the list, whatever items were skipped
    in between. *)
Theorem sections_name_their_predecessor
        (html_to_text : list Byte.byte -> option str) (stem : str -> str)
        (items : list BookItem) :
  (forall s,
      nth_error (_process_sections html_to_text stem items) 0 = Some s ->
      x_parent s = None) /\
  (forall i s,
      nth_error (_process_sections html_to_text stem items) (S i) = Some s ->
      exists p,
        nth_error (_process_sections html_to_text stem items) i = Some p /\
        x_parent s = Some (x_title p)).
Proof.
  apply chained_nth. apply (process_loop_chained html_to_text stem items None).
Qed.

Lemma sections_name_their_predecessor_witness :
  exists s p,
    nth_error (_process_sections ascii_text path_stem example_items) 1 = Some s /\
    nth_error (_process_sections ascii_text path_stem example_items) 0 = Some p /\
    x_parent p = None /\
    x_title p = lit "One" /\
    x_parent s = Some (lit "One").
Proof.
  destruct (sections_name_their_predecessor ascii_text path_stem example_items)
    as [H0 HS].
  destruct (nth_error (_process_sections ascii_text path_stem example_items) 1)
    as [s|] eqn:E1; [|discriminate E1].
  destruct (HS 0%nat s E1) as [p [Hp Hparent]].
  exists s, p. split; [reflexivity | split; [exact Hp | split; [exact (H0 p Hp)|]]].
  assert (Ht : x_title p = lit "One").
  { vm_compute in Hp. injection Hp as <-. reflexivity. }
  split; [exact Ht|]. rewrite Hparent, Ht. reflexivity.
Defined.

(** X12. An item that is not a document, or whose non-empty content
    fails to convert, or whose content is empty or [None] while it
    declares no title, gives no section and changes nothing else: the
    sections are those of the book without that item.  Nothing is ever
    raised. *)
Theorem bad_item_is_skipped
        (html_to_text : list Byte.byte -> option str) (stem : str -> str)
        (l1 l2 : list BookItem) (it : BookItem) :
  is_document it = false
  \/ (exists b, get_content it = RawBytes b /\ b <> [] /\ html_to_text b = None)
  \/ (truthy_raw (get_content it) = false /\
      (Item.title (attributes it) = None \/ Item.title (attributes it) = Some [])) ->
  _process_sections html_to_text stem (l1 ++ it :: l2)
  = _process_sections html_to_text stem (l1 ++ l2).
Proof.
  intros H. unfold _process_sections. apply process_loop_skip.
  destruct H as [H | H]; [now left | right].
  now apply process_item_None.
Qed.

Lemma bad_item_is_skipped_witness :
  (exists b, get_content (document [Byte.xff] "bad.html") = RawBytes b /\
             b <> [] /\ ascii_text b = None) /\
  _process_sections ascii_text path_stem
    ([document (bytes_of "# One") "one.html"]
       ++ document [Byte.xff] "bad.html" :: [document (bytes_of "# Two") "two.html"])
  = _process_sections ascii_text path_stem
      ([document (bytes_of "# One") "one.html"]
         ++ [document (bytes_of "# Two") "two.html"]).
Proof.
  assert (H : exists b, get_content (document [Byte.xff] "bad.html") = RawBytes b /\
                        b <> [] /\ ascii_text b = None).
  { exists [Byte.xff]. split; [reflexivity | split; [discriminate | reflexivity]]. }
  split; [exact H|].
  apply (bad_item_is_skipped ascii_text path_stem). right. left. exact H.
Defined.

(** X13. The sections come in the order of the items, one for each
    document item whose [try] body goes through, and the content and the
    title of a section are those its item gets on its own: they do not
    depend on the other items. *)
Theorem sections_follow_items
        (html_to_text : list Byte.byte -> option str) (stem : str -> str)
        (items : list BookItem) :
  map (fun s => (x_content s, x_title s))
      (_process_sections html_to_text stem items)
  = flat_map (fun it =>
                if is_document it
                then match process_item html_to_text stem None it with
                     | Some s => [(x_content s, x_title s)]
                     | None => []
                     end
                else [])
             items.
Proof. apply process_loop_core. Qed.

(* ================================================================== *)
(** * The context given to the assistant *)

(** X14. After a display, [_get_section_context] raises nothing and the
    text it returns ends with the page that the display has just shown:
    the assistant is asked about what the reader sees. *)
Theorem context_ends_with_displayed_page
        (metadata : Metadata) (console : Console) (self self' : Reader) (page : str) :
  display_current console self = Ok (self', Some page) ->
  exists header, _get_section_context metadata self' = Ok (header ++ page).
Proof.
  intros H.
  assert (Hne : sections self <> []).
  { intros E. unfold display_current in H. rewrite E in H. discriminate. }
  destruct (display_current_Ok console self self' (Some page) Hne H)
    as [section [page' [Hs [_ [Hs' [Hi [_ [_ [Hg Ho]]]]]]]]].
  injection Ho as <-.
  unfold _get_section_context. rewrite Hs', Hi, Hs. cbn [bind]. rewrite Hg. cbn [bind].
  eexists. rewrite !app_assoc. reflexivity.
Qed.

Lemma context_ends_with_displayed_page_witness :
  display_current console_80x13 on_first_section
  = Ok (on_first_section, Some (lit "a")) /\
  exists header,
    _get_section_context
      {| md_title := [(lit "Weft", [])]; md_author := [];
         md_language := []; md_description := [] |}
      on_first_section
    = Ok (header ++ lit "a").
Proof.
  assert (H : display_current console_80x13 on_first_section
              = Ok (on_first_section, Some (lit "a"))) by reflexivity.
  split; [exact H|].
  exact (context_ends_with_displayed_page _ console_80x13 _ _ _ H).
Defined.

(* ================================================================== *)
(** * The split views *)

Lemma halves (a : Z) : a / 2 <= a - a / 2 <= a / 2 + 1.
Proof.
  pose proof (Z.div_mod a 2 ltac:(lia)).
  pose proof (Z.mod_pos_bound a 2 ltac:(lia)). lia.
Qed.

(** X15. In both split views the two panels share the height that is
    left (the terminal height minus 12 in [ask_ai], minus 8 in
    [summarize_current]) without remainder, and the lower panel is as
    high as the upper one or one line higher, on every terminal. *)
Theorem split_views_fill_the_height (console : Console) :
  (fst (ask_ai_calculate_layout console) + snd (ask_ai_calculate_layout console)
   = height console - 12 /\
   fst (ask_ai_calculate_layout console)
   <= snd (ask_ai_calculate_layout console)
   <= fst (ask_ai_calculate_layout console) + 1) /\
  (fst (summarize_calculate_layout console) + snd (summarize_calculate_layout console)
   = height console - 8 /\
   fst (summarize_calculate_layout console)
   <= snd (summarize_calculate_layout console)
   <= fst (summarize_calculate_layout console) + 1).
Proof.
  unfold ask_ai_calculate_layout, summarize_calculate_layout. cbn [fst snd].
  pose proof (halves (height console - 12)).
  pose proof (halves (height console - 8)). lia.
Qed.

Section Lines.

Lemma NEWLINE_not_nil : NEWLINE <> [].
Proof. discriminate. Qed.

Lemma startswith_newline (c : char) (s : str) :
  startswith (c :: s) NEWLINE = true <-> c = NL.
Proof.
  rewrite startswith_prefix. unfold NEWLINE. simpl. split.
  - intros [rest H]. now injection H.
  - intros ->. eauto.
Qed.

Lemma split_line (p : str) : ~ In NL p -> split p NEWLINE = [p].
Proof.
  induction p as [|c p IH]; intros Hp; [reflexivity|].
  rewrite split_cons by apply NEWLINE_not_nil.
  destruct (startswith (c :: p) NEWLINE) eqn:E.
  - apply startswith_newline in E. subst c. destruct Hp. now left.
  - rewrite IH; [reflexivity|]. intros Hin. apply Hp. now right.
Qed.

Lemma split_app_line (p s : str) :
  ~ In NL p -> split (p ++ NEWLINE ++ s) NEWLINE = p :: split s NEWLINE.
Proof.
  induction p as [|c p IH]; intros Hp.
  - reflexivity.
  - change ((c :: p) ++ NEWLINE ++ s) with (c :: (p ++ NEWLINE ++ s)).
    rewrite split_cons by apply NEWLINE_not_nil.
    destruct (startswith (c :: p ++ NEWLINE ++ s) NEWLINE) eqn:E.
    + apply startswith_newline in E. subst c. destruct Hp. now left.
    + rewrite IH; [reflexivity|]. intros Hin. apply Hp. now right.
Qed.

(** No line holds a newline. *)
Lemma split_lines (s : str) : Forall (fun p => ~ In NL p) (split s NEWLINE).
Proof.
  induction s as [|c s IH]; [constructor; [tauto | constructor]|].
  rewrite split_cons by apply NEWLINE_not_nil.
  destruct (startswith (c :: s) NEWLINE) eqn:E.
  - constructor; [tauto | exact IH].
  - assert (Hc : c <> NL).
    { intros ->. assert (startswith (NL :: s) NEWLINE = true)
        by now apply startswith_newline. congruence. }
    destruct (split s NEWLINE) as [|p ps]; simpl.
    + constructor; [|constructor]. intros [H | []]. congruence.
    + inversion IH; subst. constructor; [|assumption].
      intros [H | H]; [congruence | contradiction].
Qed.

(** Lines that are joined are found again by splitting. *)
Lemma split_join_lines (g : list str) :
  g <> [] -> Forall (fun p => ~ In NL p) g ->
  split (join NEWLINE g) NEWLINE = g.
Proof.
  intros Hne Hg. revert Hne.
  induction Hg as [|p g Hp Hg IH]; intros Hne; [now destruct Hne|].
  destruct g as [|q g].
  - now apply split_line.
  - rewrite join_cons by discriminate. rewrite split_app_line by assumption.
    rewrite IH by discriminate. reflexivity.
Qed.

(** The first pieces joined are the beginning of all the pieces joined. *)
Lemma join_firstn_prefix (sep : str) (l : list str) :
  forall k, exists rest, join sep l = join sep (firstn k l) ++ rest.
Proof.
  induction l as [|p l IH]; intros [|k]; simpl firstn.
  - exists []. reflexivity.
  - exists []. reflexivity.
  - exists (join sep (p :: l)). reflexivity.
  - destruct l as [|q l].
    + rewrite firstn_nil. exists []. simpl. now rewrite app_nil_r.
    + destruct (IH k) as [rest Hrest].
      rewrite join_cons by discriminate. rewrite Hrest.
      destruct (firstn k (q :: l)) as [|x xs] eqn:E.
      * simpl. exists (sep ++ rest). reflexivity.
      * rewrite (join_cons sep p (x :: xs)) by discriminate. exists rest.
        now rewrite <- !app_assoc.
Qed.

Lemma Forall_first {A : Type} (P : A -> Prop) (l : list A) :
  forall k, Forall P l -> Forall P (firstn k l).
Proof.
  induction l as [|x l IH]; intros [|k] H; simpl; try constructor;
    inversion H; subst; auto.
Qed.

Lemma slice_to_firstn {A : Type} (l : list A) (stop : Z) :
  exists k, slice_to l stop = firstn k l.
Proof. unfold slice_to. destruct (stop <? 0); eauto. Qed.

End Lines.

(** X16. The text given to the content panel of [ask_ai] is a beginning
    of the context: nothing is reordered or altered, the end is cut off.
    With [stop = content_height - 4]: when the context has [stop] lines
    at most the panel gets all of it, and when [stop] is 1 or more the
    panel gets the first [stop] lines. *)
Theorem visible_content_is_a_beginning (console : Console) (content : str) :
  let stop := fst (ask_ai_calculate_layout console) - 4 in
  (exists rest, content = visible_content console content ++ rest) /\
  (len (split content NEWLINE) <= stop -> visible_content console content = content) /\
  (1 <= stop ->
   split (visible_content console content) NEWLINE
   = firstn (Z.to_nat stop) (split content NEWLINE)).
Proof.
  intros stop. unfold visible_content. fold stop.
  split; [|split].
  - destruct (slice_to_firstn (split content NEWLINE) stop) as [k ->].
    destruct (join_firstn_prefix NEWLINE (split content NEWLINE) k) as [rest H].
    rewrite join_split in H by apply NEWLINE_not_nil. eauto.
  - intros Hle. unfold slice_to.
    pose proof (len_nonneg (split content NEWLINE)).
    destruct (Z.ltb_spec stop 0); [lia|].
    rewrite firstn_all2 by (unfold len in Hle; lia).
    apply join_split, NEWLINE_not_nil.
  - intros Hstop. unfold slice_to.
    destruct (Z.ltb_spec stop 0); [lia|].
    apply split_join_lines.
    + pose proof (split_not_nil content NEWLINE).
      destruct (split content NEWLINE); [congruence|].
      destruct (Z.to_nat stop) eqn:E; [lia | discriminate].
    + apply Forall_first, split_lines.
Qed.

Lemma visible_content_is_a_beginning_witness :
  1 <= fst (ask_ai_calculate_layout console_80x24) - 4 /\
  split (visible_content console_80x24 tall_content) NEWLINE
  = firstn (Z.to_nat (fst (ask_ai_calculate_layout console_80x24) - 4))
           (split tall_content NEWLINE).
Proof.
  assert (H : 1 <= fst (ask_ai_calculate_layout console_80x24) - 4)
    by (vm_compute; congruence).
  split; [exact H|].
  exact (proj2 (proj2 (visible_content_is_a_beginning console_80x24 tall_content)) H).
Defined.

(* ================================================================== *)
(** * [text_to_speech_stream] *)

Lemma write_at_end (audio : BytesIO) (chunk : list Byte.byte) :
  tell audio = length (buffer audio) ->
  buffer (write audio chunk) = buffer audio ++ chunk /\
  tell (write audio chunk) = length (buffer (write audio chunk)).
Proof.
  intros H. unfold write. destruct chunk as [|x chunk].
  - rewrite app_nil_r. auto.
  - cbn [buffer tell]. rewrite H, firstn_all, Nat.sub_diag.
    rewrite skipn_all2 by lia. cbn [repeat app]. rewrite app_nil_r.
    split; [reflexivity|]. rewrite length_app. reflexivity.
Qed.

Lemma write_all_at_end (response : list (list Byte.byte)) :
  forall audio,
  tell audio = length (buffer audio) ->
  buffer (fold_left write response audio) = buffer audio ++ concat response.
Proof.
  induction response as [|chunk response IH]; intros audio H; simpl.
  - now rewrite app_nil_r.
  - destruct (write_at_end audio chunk H) as [Hb Ht].
    rewrite IH by assumption. rewrite Hb. now rewrite <- app_assoc.
Qed.

(** X17. The stream that [text_to_speech_stream] returns is rewound to
    its start and holds the chunks of the response one after the other:
    reading it gives the whole audio, nothing lost and nothing reordered. *)
Theorem text_to_speech_stream_holds_all_chunks (response : list (list Byte.byte)) :
  tell (text_to_speech_stream response) = 0%nat /\
  buffer (text_to_speech_stream response) = concat response /\
  fst (read_all (text_to_speech_stream response)) = concat response.
Proof.
  unfold text_to_speech_stream, read_all, seek. cbn [tell buffer fst skipn].
  rewrite write_all_at_end by reflexivity. auto.
Qed.

(* ================================================================== *)
(** * The packing is greedy *)

Section Greedy.

Variable console : Console.
Hypothesis wide : 10 < width console.

Lemma snoc_pair_cases {A : Type} (done l1 l2 : list A) (new g g' : A) :
  done ++ [new] = l1 ++ g :: g' :: l2 ->
  (exists l2', l2 = l2' ++ [new] /\ done = l1 ++ g :: g' :: l2')
  \/ (l2 = [] /\ g' = new /\ done = l1 ++ [g]).
Proof.
  intros H. destruct l2 as [|y l2].
  - right. change (l1 ++ [g; g']) with (l1 ++ [g] ++ [g']) in H.
    rewrite app_assoc in H. apply app_inj_tail in H as [-> ->]. auto.
  - left. destruct (exists_last (l := y :: l2) ltac:(discriminate)) as [l2' [a E]].
    rewrite E in *. exists l2'.
    change (l1 ++ g :: g' :: l2' ++ [a]) with (l1 ++ (g :: g' :: l2') ++ [a]) in H.
    rewrite app_assoc in H. apply app_inj_tail in H as [-> ->]. auto.
Qed.

Lemma greedy_snoc (h : Z) (done : list (list str)) (p : str) (rest : list str) :
  greedy console h done ->
  last_page_full console h done (p :: rest) ->
  greedy console h (done ++ [p :: rest]).
Proof.
  intros Hg Hl l1 g q r l2 E.
  apply snoc_pair_cases in E as [[l2' [_ E]] | [_ [E1 E2]]].
  - eapply Hg; eassumption.
  - injection E1 as -> ->. destruct (Hl l1 g E2) as [_ H]. now apply (H p rest).
Qed.

Lemma loop_body_greedy (h : Z) (st st' : packing) (para : str)
      (done : list (list str)) :
  loop_body console h st para = Ok st' ->
  l_pages st = map (join BLANK_LINE) done ->
  l_current_lines st = total_estimate console (l_current_page st) ->
  greedy console h done ->
  last_page_full console h done (l_current_page st) ->
  exists done',
    l_pages st' = map (join BLANK_LINE) done' /\
    l_current_lines st' = total_estimate console (l_current_page st') /\
    greedy console h done' /\
    last_page_full console h done' (l_current_page st') /\
    concat done' ++ l_current_page st'
    = (concat done ++ l_current_page st) ++ [para].
Proof.
  intros H Hp Hlines Hg Hl.
  pose proof (estimate_at_least_2 console para wide) as Hest.
  apply loop_body_cases in H as [n [Hn [H | [H | H]]]];
    rewrite para_lines_estimate in Hn by lia; apply Ok_inj in Hn; subst n.
  - destruct H as [Hover [Hcp ->]]. exists (done ++ [l_current_page st]).
    cbn [l_pages l_current_page l_current_lines].
    rewrite Hp, map_app, concat_app. simpl. rewrite app_nil_r.
    split; [reflexivity | split; [lia | split; [|split; [|reflexivity]]]].
    + destruct (l_current_page st) as [|q cp]; [congruence|].
      now apply greedy_snoc.
    + intros l g E. apply app_inj_tail in E as [_ <-].
      split; [discriminate|]. intros p rest E. injection E as <- <-. lia.
  - destruct H as [Hover [Hcp ->]]. exists (done ++ [[para]]).
    cbn [l_pages l_current_page l_current_lines].
    rewrite Hcp in *. simpl in Hlines.
    rewrite Hp, map_app, concat_app. simpl. rewrite !app_nil_r.
    split; [reflexivity | split; [reflexivity | split; [|split; [|reflexivity]]]].
    + apply greedy_snoc; [assumption|].
      intros l g E. destruct (Hl l g E) as [H0 _].
      split; [discriminate|]. intros p rest E'. injection E' as <- <-.
      specialize (H0 eq_refl). lia.
    + intros l g E. apply app_inj_tail in E as [_ <-].
      split; [intros _; simpl; lia | discriminate].
  - destruct H as [Hle ->]. exists done.
    cbn [l_pages l_current_page l_current_lines].
    rewrite total_estimate_app. simpl total_estimate at 2.
    split; [assumption | split; [lia | split; [assumption | split]]].
    + intros l g E. destruct (Hl l g E) as [H0 H1].
      split; [intros E'; now destruct (l_current_page st)|].
      intros p rest E'. destruct (l_current_page st) as [|q cp].
      * injection E' as <- <-. specialize (H0 eq_refl). lia.
      * injection E' as <- _. now apply (H1 q cp).
    + now rewrite app_assoc.
Qed.

Lemma for_paragraphs_greedy (h : Z) (paragraphs : list str) :
  forall (st st' : packing) (done : list (list str)),
  for_paragraphs console h paragraphs st = Ok st' ->
  l_pages st = map (join BLANK_LINE) done ->
  l_current_lines st = total_estimate console (l_current_page st) ->
  greedy console h done ->
  last_page_full console h done (l_current_page st) ->
  exists done',
    l_pages st' = map (join BLANK_LINE) done' /\
    greedy console h done' /\
    last_page_full console h done' (l_current_page st') /\
    concat done' ++ l_current_page st'
    = (concat done ++ l_current_page st) ++ paragraphs.
Proof.
  induction paragraphs as [|para rest IH]; intros st st' done H Hp Hlines Hg Hl.
  - injection H as <-. exists done. rewrite app_nil_r. auto.
  - simpl in H. destruct (loop_body console h st para) as [st1|e] eqn:E;
      simpl in H; [|discriminate].
    destruct (loop_body_greedy h st st1 para done E Hp Hlines Hg Hl)
      as [d1 [Hp1 [Hl1 [Hg1 [Hf1 Hcat1]]]]].
    destruct (IH st1 st' d1 H Hp1 Hl1 Hg1 Hf1) as [d2 [Hp2 [Hg2 [Hf2 Hcat2]]]].
    exists d2. split; [assumption | split; [assumption | split; [assumption|]]].
    rewrite Hcat2, Hcat1, <- app_assoc. reflexivity.
Qed.

Lemma paginate_greedy (content : str) :
  exists groups,
    paginate console content = Ok (map (join BLANK_LINE) groups) /\
    concat groups = split content BLANK_LINE /\
    greedy console (height console - 10) groups.
Proof.
  destruct (paginate_defined console content ltac:(lia)) as [pages H].
  pose proof H as Hpages. unfold paginate in H.
  destruct (for_paragraphs console (height console - 10)
              (split content BLANK_LINE) packing0) as [st|e] eqn:E;
    cbn [bind] in H; [|discriminate].
  destruct (for_paragraphs_greedy (height console - 10) _ packing0 st [] E
              eq_refl eq_refl)
    as [done [Hp [Hg [Hl Hcat]]]].
  { intros l1 g p rest l2 E0. destruct l1; discriminate. }
  { intros l g E0. destruct l; discriminate. }
  simpl in Hcat. apply Ok_inj in H. rewrite Hpages, <- H. clear H Hpages.
  destruct (l_current_page st) as [|q cp] eqn:Ecp; cbn [truthy].
  - rewrite app_nil_r in Hcat. exists done. rewrite Hp.
    destruct done as [|g done].
    + simpl in Hcat. symmetry in Hcat. now apply split_not_nil in Hcat.
    + cbn [map truthy]. auto.
  - rewrite truthy_snoc. exists (done ++ [q :: cp]).
    rewrite Hp, map_app. split; [reflexivity | split].
    + rewrite concat_app. simpl. now rewrite app_nil_r.
    + now apply greedy_snoc.
Qed.

End Greedy.

(** X18. On a terminal wider than 10 columns the packing is greedy: for
    every page and the page after it, the page together with the first
    paragraph of the next one is estimated at more than
    [console.height - 10] lines.  A page ends only when the next
    paragraph does not fit. *)
Theorem pages_are_greedy (console : Console) (content : str) :
  10 < width console ->
  exists groups,
    paginate console content = Ok (map (join BLANK_LINE) groups) /\
    concat groups = split content BLANK_LINE /\
    forall l1 g p rest l2,
      groups = l1 ++ g :: (p :: rest) :: l2 ->
      total_estimate console g + estimate console p > height console - 10.
Proof. intros Hw. now apply paginate_greedy. Qed.

Lemma pages_are_greedy_witness :
  10 < width console_80x13 /\
  exists groups,
    paginate console_80x13 tall_content = Ok (map (join BLANK_LINE) groups) /\
    concat groups = split tall_content BLANK_LINE /\
    forall l1 g p rest l2,
      groups = l1 ++ g :: (p :: rest) :: l2 ->
      total_estimate console_80x13 g + estimate console_80x13 p
      > height console_80x13 - 10.
Proof.
  split; [simpl; lia | apply (pages_are_greedy console_80x13 tall_content); simpl; lia].
Defined.
